(** * Service platform: job lifecycle, broker ingestion and refresh sessions

    A shallow embedding of the Go sources of the service platform:
    the job repository and the session repository (SQL statements over
    one table each), the Redis job queue, the worker pool, the retry
    scheduler, the job manager, the SQS listener with its job-manager
    bridge, and the refresh-token part of the auth manager.

    Conventions.
    - A table is a finite map from primary key to row (jobs) or a list of
      rows in insertion order (sessions, whose key the database generates).
    - [time.Time] and [time.Duration] are integers (nanoseconds); the
      current time is an explicit argument of every function that reads
      the clock.
    - A call that can fail for reasons outside the program (database or
      broker transport) takes a [fault] argument: [Some e] makes the call
      return error [e] without any effect, [None] lets the statement run.
    - Go's [int] and [time.Duration] are 64-bit; the wrap-around is written
      out where the arithmetic can reach it. *)

From stdpp Require Import gmap strings list sorting.
From Stdlib Require Import ZArith Lia.

Local Open Scope Z_scope.
Set Warnings "-register-all".

(** ** Go runtime values *)

Definition int64_wrap (z : Z) : Z := (z + 2 ^ 63) mod 2 ^ 64 - 2 ^ 63.

Definition Second : Z := 1000000000.
Definition Minute : Z := 60 * Second.

(** Decoded JSON documents ([interface{}] values produced by
    [encoding/json]). *)
Inductive JValue : Type :=
  | JNull
  | JBool (b : bool)
  | JNum (n : Z)
  | JStr (s : string)
  | JArr (items : list JValue)
  | JObj (fields : gmap string JValue).

(** [error] values are compared through their text only. *)
Definition error := string.

Inductive result (A : Type) : Type :=
  | Ok (a : A)
  | Err (e : error).
Arguments Ok {A} a.
Arguments Err {A} e.

(** ** package job: constants *)
Module job.

(** [type Priority int] with [iota] constants. *)
Definition Priority := Z.
Definition PriorityLow : Priority := 0.
Definition PriorityNormal : Priority := 1.
Definition PriorityHigh : Priority := 2.
Definition PriorityCritical : Priority := 3.

Inductive Status : Set :=
  | Pending
  | Processing
  | Completed
  | Failed
  | Retrying.

#[global] Instance Status_eq_dec : EqDecision Status.
Proof. solve_decision. Defined.

Definition InitClaim : string := "init_claim".
Definition CompleteClaim : string := "complete_claim".
Definition KYCVerification : string := "kyc_verification".

(** The event table of package job ([EventType.ToJobType],
    [EventType.ToPriority]). *)
Definition ClaimInitiated : string := "claim.initiated".
Definition ClaimCompleted : string := "claim.completed".

Definition ToPriority (e : string) : Priority :=
  if decide (e = ClaimInitiated) then PriorityHigh
  else if decide (e = ClaimCompleted) then PriorityHigh
  else PriorityNormal.

End job.

(** ** package entity *)
Module entity.

Record Job : Type := mkJob {
  ID : string;
  Type_ : string;
  Priority : job.Priority;
  Payload : option (gmap string JValue);
  Attempts : Z;
  MaxAttempts : Z;
  CreatedAt : Z;
  UpdatedAt : option Z;
  DeletedAt : option Z;
  ScheduledAt : option Z;
  StartedAt : option Z;
  CompletedAt : option Z;
  Status : job.Status;
  Error : string
}.

(** The zero value [entity.Job{}], except for the status, whose zero
    value (the empty string) is not one of the five constants: a job
    literal that leaves the status out is represented with [Pending],
    the column default. *)
Definition zero : Job :=
  {| ID := ""; Type_ := ""; Priority := 0; Payload := None;
     Attempts := 0; MaxAttempts := 0; CreatedAt := 0; UpdatedAt := None;
     DeletedAt := None; ScheduledAt := None; StartedAt := None;
     CompletedAt := None; Status := job.Pending; Error := "" |}.

Definition set_Attempts (n : Z) (j : Job) : Job :=
  {| ID := ID j; Type_ := Type_ j; Priority := Priority j;
     Payload := Payload j; Attempts := n; MaxAttempts := MaxAttempts j;
     CreatedAt := CreatedAt j; UpdatedAt := UpdatedAt j;
     DeletedAt := DeletedAt j; ScheduledAt := ScheduledAt j;
     StartedAt := StartedAt j; CompletedAt := CompletedAt j;
     Status := Status j; Error := Error j |}.

Definition set_Payload (p : option (gmap string JValue)) (j : Job) : Job :=
  {| ID := ID j; Type_ := Type_ j; Priority := Priority j;
     Payload := p; Attempts := Attempts j; MaxAttempts := MaxAttempts j;
     CreatedAt := CreatedAt j; UpdatedAt := UpdatedAt j;
     DeletedAt := DeletedAt j; ScheduledAt := ScheduledAt j;
     StartedAt := StartedAt j; CompletedAt := CompletedAt j;
     Status := Status j; Error := Error j |}.

End entity.

(** ** jobRepository: the statements over the jobs table *)
Module jobRepository.
Import entity.

(** [Set("error = ?", errorMsg)] is added only for a non-empty text. *)
Definition with_error (errorMsg : string) (old : string) : string :=
  if decide (errorMsg = "") then old else errorMsg.

(** [UPDATE jobs SET ... WHERE id = ? AND deleted_at IS NULL]. *)
Definition update_live (f : Job -> Job) (id : string)
    (db : gmap string Job) : gmap string Job :=
  alter (fun j => match DeletedAt j with None => f j | Some _ => j end) id db.

(** [UPDATE jobs SET ... WHERE id = ?] (no tombstone filter). *)
Definition update_any (f : Job -> Job) (id : string)
    (db : gmap string Job) : gmap string Job :=
  alter f id db.

(** [Create]: the insert fails on a primary-key conflict. *)
Definition Create (fault : option error) (j : Job)
    (db : gmap string Job) : gmap string Job * option error :=
  match fault with
  | Some e => (db, Some e)
  | None =>
      match db !! ID j with
      | Some _ => (db, Some "duplicate key value violates unique constraint"%string)
      | None => (<[ID j := j]> db, None)
      end
  end.

Definition GetByID (id : string) (db : gmap string Job) : option Job :=
  match db !! id with
  | Some j => match DeletedAt j with None => Some j | Some _ => None end
  | None => None
  end.

Definition UpdateStatus (id : string) (status : job.Status)
    (errorMsg : string) (now : Z) : gmap string Job -> gmap string Job :=
  update_live (fun j =>
    {| ID := ID j; Type_ := Type_ j; Priority := Priority j;
       Payload := Payload j; Attempts := Attempts j;
       MaxAttempts := MaxAttempts j; CreatedAt := CreatedAt j;
       UpdatedAt := Some now; DeletedAt := DeletedAt j;
       ScheduledAt := ScheduledAt j; StartedAt := StartedAt j;
       CompletedAt := CompletedAt j; Status := status;
       Error := with_error errorMsg (Error j) |}) id.

Definition UpdateStartTime (id : string) (startedAt now : Z)
    : gmap string Job -> gmap string Job :=
  update_live (fun j =>
    {| ID := ID j; Type_ := Type_ j; Priority := Priority j;
       Payload := Payload j; Attempts := Attempts j;
       MaxAttempts := MaxAttempts j; CreatedAt := CreatedAt j;
       UpdatedAt := Some now; DeletedAt := DeletedAt j;
       ScheduledAt := ScheduledAt j; StartedAt := Some startedAt;
       CompletedAt := CompletedAt j; Status := Status j;
       Error := Error j |}) id.

Definition UpdateCompleteTime (id : string) (completedAt now : Z)
    : gmap string Job -> gmap string Job :=
  update_any (fun j =>
    {| ID := ID j; Type_ := Type_ j; Priority := Priority j;
       Payload := Payload j; Attempts := Attempts j;
       MaxAttempts := MaxAttempts j; CreatedAt := CreatedAt j;
       UpdatedAt := Some now; DeletedAt := DeletedAt j;
       ScheduledAt := ScheduledAt j; StartedAt := StartedAt j;
       CompletedAt := Some completedAt; Status := Status j;
       Error := Error j |}) id.

Definition IncrementAttempts (id : string) (now : Z)
    : gmap string Job -> gmap string Job :=
  update_any (fun j =>
    {| ID := ID j; Type_ := Type_ j; Priority := Priority j;
       Payload := Payload j; Attempts := Attempts j + 1;
       MaxAttempts := MaxAttempts j; CreatedAt := CreatedAt j;
       UpdatedAt := Some now; DeletedAt := DeletedAt j;
       ScheduledAt := ScheduledAt j; StartedAt := StartedAt j;
       CompletedAt := CompletedAt j; Status := Status j;
       Error := Error j |}) id.

Definition UpdateJobToProcessing (id : string) (startedAt now : Z)
    : gmap string Job -> gmap string Job :=
  update_live (fun j =>
    {| ID := ID j; Type_ := Type_ j; Priority := Priority j;
       Payload := Payload j; Attempts := Attempts j;
       MaxAttempts := MaxAttempts j; CreatedAt := CreatedAt j;
       UpdatedAt := Some now; DeletedAt := DeletedAt j;
       ScheduledAt := ScheduledAt j; StartedAt := Some startedAt;
       CompletedAt := CompletedAt j; Status := job.Processing;
       Error := Error j |}) id.

Definition UpdateJobToCompleted (id : string) (completedAt now : Z)
    : gmap string Job -> gmap string Job :=
  update_live (fun j =>
    {| ID := ID j; Type_ := Type_ j; Priority := Priority j;
       Payload := Payload j; Attempts := Attempts j;
       MaxAttempts := MaxAttempts j; CreatedAt := CreatedAt j;
       UpdatedAt := Some now; DeletedAt := DeletedAt j;
       ScheduledAt := ScheduledAt j; StartedAt := StartedAt j;
       CompletedAt := Some completedAt; Status := job.Completed;
       Error := Error j |}) id.

Definition UpdateJobToFailed (id : string) (errorMsg : string) (now : Z)
    : gmap string Job -> gmap string Job :=
  update_live (fun j =>
    {| ID := ID j; Type_ := Type_ j; Priority := Priority j;
       Payload := Payload j; Attempts := Attempts j + 1;
       MaxAttempts := MaxAttempts j; CreatedAt := CreatedAt j;
       UpdatedAt := Some now; DeletedAt := DeletedAt j;
       ScheduledAt := ScheduledAt j; StartedAt := StartedAt j;
       CompletedAt := CompletedAt j; Status := job.Failed;
       Error := with_error errorMsg (Error j) |}) id.

Definition UpdateJobToRetrying (id : string) (errorMsg : string) (now : Z)
    : gmap string Job -> gmap string Job :=
  update_live (fun j =>
    {| ID := ID j; Type_ := Type_ j; Priority := Priority j;
       Payload := Payload j; Attempts := Attempts j + 1;
       MaxAttempts := MaxAttempts j; CreatedAt := CreatedAt j;
       UpdatedAt := Some now; DeletedAt := DeletedAt j;
       ScheduledAt := ScheduledAt j; StartedAt := StartedAt j;
       CompletedAt := CompletedAt j; Status := job.Retrying;
       Error := with_error errorMsg (Error j) |}) id.

(** Rows of the table, as a [SELECT] without [WHERE] sees them. *)
Definition rows (db : gmap string Job) : list Job := (map_to_list db).*2.

(** [Limit(n)]: the ORM emits the [LIMIT] clause for a positive [n]
    only. *)
Definition sql_limit {A} (n : Z) (l : list A) : list A :=
  if 0 <? n then take (Z.to_nat n) l else l.

(** [ORDER BY priority DESC, created_at ASC]. *)
Definition pending_order (a b : Job) : Prop :=
  Priority b < Priority a \/
  (Priority a = Priority b /\ CreatedAt a <= CreatedAt b).

#[global] Instance pending_order_dec a b : Decision (pending_order a b).
Proof. unfold pending_order. apply _. Defined.

(** [WHERE status = 'pending' AND deleted_at IS NULL
     AND (scheduled_at IS NULL OR scheduled_at <= now)]. *)
Definition pending_visible (now : Z) (j : Job) : bool :=
  bool_decide (Status j = job.Pending)
  && bool_decide (DeletedAt j = None)
  && match ScheduledAt j with
     | None => true
     | Some t => bool_decide (t <= now)
     end.

Definition GetPendingJobs (now : Z) (limit : Z) (db : gmap string Job)
    : list Job :=
  sql_limit limit
    (merge_sort pending_order
       (List.filter (pending_visible now) (rows db))).

(** [ORDER BY priority DESC, updated_at ASC]; a [NULL] sorts last. *)
Definition null_last_le (a b : option Z) : Prop :=
  match a, b with
  | Some x, Some y => x <= y
  | Some _, None => True
  | None, Some _ => False
  | None, None => True
  end.

#[global] Instance null_last_le_dec a b : Decision (null_last_le a b).
Proof. destruct a, b; simpl; apply _. Defined.

Definition retry_order (a b : Job) : Prop :=
  Priority b < Priority a \/
  (Priority a = Priority b /\ null_last_le (UpdatedAt a) (UpdatedAt b)).

#[global] Instance retry_order_dec a b : Decision (retry_order a b).
Proof. unfold retry_order. apply _. Defined.

(** [WHERE status = 'failed' AND attempts < max_attempts
     AND deleted_at IS NULL AND updated_at < beforeTime]. *)
Definition retryable (beforeTime : Z) (j : Job) : bool :=
  bool_decide (Status j = job.Failed)
  && bool_decide (Attempts j < MaxAttempts j)
  && bool_decide (DeletedAt j = None)
  && match UpdatedAt j with
     | None => false
     | Some t => bool_decide (t < beforeTime)
     end.

Definition GetRetryableJobs (beforeTime : Z) (limit : Z)
    (db : gmap string Job) : list Job :=
  sql_limit limit
    (merge_sort retry_order
       (List.filter (retryable beforeTime) (rows db))).

(** [ORDER BY created_at DESC]. *)
Definition newest_first (a b : Job) : Prop := CreatedAt b <= CreatedAt a.

#[global] Instance newest_first_dec a b : Decision (newest_first a b).
Proof. unfold newest_first. apply _. Defined.

(** [WHERE status = ? AND deleted_at IS NULL]. *)
Definition has_status (status : job.Status) (j : Job) : bool :=
  bool_decide (Status j = status) && bool_decide (DeletedAt j = None).

Definition GetJobsByStatus (status : job.Status) (limit : Z)
    (db : gmap string Job) : list Job :=
  sql_limit limit
    (merge_sort newest_first (List.filter (has_status status) (rows db))).

End jobRepository.

(** ** package queue: the Redis job queue *)
Module queue.
Import entity.

(** A list element as Redis stores it.  [WJob j] is the text that
    [json.Marshal] produces for [j], which [json.Unmarshal] decodes back to
    [j]; [WText s] is any other text, which [json.Unmarshal] into an
    [entity.Job] rejects. *)
Inductive wire : Type :=
  | WJob (j : Job)
  | WText (s : string).

Definition json_Marshal (j : Job) : wire := WJob j.

Definition json_Unmarshal (w : wire) : result Job :=
  match w with
  | WJob j => Ok j
  | WText _ => Err "invalid character looking for beginning of value"%string
  end.

Definition QueueKey : string := "{jobs}:queue".
Definition QueueKeyRetry : string := "{jobs}:retry".
Definition ProcessingSetKey : string := "{jobs}:processing".
Definition RetrySetKey : string := "{jobs}:retry_schedule".

(** The keyspace: lists (head first) and sorted sets (member to score). *)
Record Redis : Type := mkRedis {
  lists : gmap string (list wire);
  zsets : gmap string (gmap string Z)
}.

Definition empty : Redis := {| lists := ∅; zsets := ∅ |}.

Definition list_at (key : string) (r : Redis) : list wire :=
  default [] (lists r !! key).

Definition zset_at (key : string) (r : Redis) : gmap string Z :=
  default ∅ (zsets r !! key).

(** An empty list is no key at all. *)
Definition store_list (key : string) (l : list wire) (r : Redis) : Redis :=
  {| lists := match l with
              | [] => delete key (lists r)
              | _ :: _ => <[key := l]> (lists r)
              end;
     zsets := zsets r |}.

Definition LPush (key : string) (v : wire) (r : Redis) : Redis :=
  store_list key (v :: list_at key r) r.

Fixpoint pop_last (l : list wire) : option (list wire * wire) :=
  match l with
  | [] => None
  | [x] => Some ([], x)
  | x :: rest =>
      match pop_last rest with
      | Some (rest', y) => Some (x :: rest', y)
      | None => None
      end
  end.

(** [BRPOP key1 key2 ... timeout]: the first key, in the order given, that
    holds a non-empty list loses its last element; [None] is the reply
    [redis.Nil] after the timeout. *)
Fixpoint BRPop (keys : list string) (r : Redis)
    : option (string * wire * Redis) :=
  match keys with
  | [] => None
  | key :: keys' =>
      match pop_last (list_at key r) with
      | Some (rest, v) => Some (key, v, store_list key rest r)
      | None => BRPop keys' r
      end
  end.

Definition ZAdd (key member : string) (score : Z) (r : Redis) : Redis :=
  {| lists := lists r;
     zsets := <[key := <[member := score]> (zset_at key r)]> (zsets r) |}.

Definition ZRem (key member : string) (r : Redis) : Redis :=
  {| lists := lists r;
     zsets := <[key := delete member (zset_at key r)]> (zsets r) |}.

Definition LLen (key : string) (r : Redis) : Z :=
  Z.of_nat (length (list_at key r)).

(** [time.Time.Unix]: whole seconds. *)
Definition Unix (t : Z) : Z := t / Second.

Definition getQueueKey (priority : job.Priority) : string := QueueKey.

Definition GetPriorityQueues : list string := [QueueKey].

(** The two commands go through one [TxPipeline]: both take effect or,
    on a fault, neither.  [json.Marshal] of a job does not fail. *)
Definition Enqueue (fault : option error) (now : Z) (j : Job) (r : Redis)
    : Redis * option error :=
  match fault with
  | Some e => (r, Some ("failed to enqueue job: " +:+ e))
  | None =>
      let queueKey := getQueueKey (Priority j) in
      let r1 := LPush queueKey (json_Marshal j) r in
      let r2 :=
        match ScheduledAt j with
        | Some t =>
            if now <? t then ZAdd RetrySetKey (ID j) (Unix t) r1 else r1
        | None => r1
        end in
      (r2, None)
  end.

(** A reply of [BRPOP] always has the two elements key and value, so the
    length test of the source never fires. *)
Definition Dequeue (fault : option error) (queues : list string) (r : Redis)
    : Redis * result (option Job) :=
  match fault with
  | Some e => (r, Err ("failed to dequeue job: " +:+ e))
  | None =>
      match BRPop queues r with
      | None => (r, Ok None)
      | Some (_, v, r') =>
          match json_Unmarshal v with
          | Err e => (r', Err ("failed to unmarshal job: " +:+ e))
          | Ok j => (r', Ok (Some j))
          end
      end
  end.

Definition MarkProcessing (fault : option error) (now : Z) (jobID : string)
    (r : Redis) : Redis * option error :=
  match fault with
  | Some e => (r, Some ("failed to mark job as processing: " +:+ e))
  | None => (ZAdd ProcessingSetKey jobID (Unix now) r, None)
  end.

Definition MarkCompleted (fault : option error) (jobID : string)
    (r : Redis) : Redis * option error :=
  match fault with
  | Some e => (r, Some ("failed to mark job as completed: " +:+ e))
  | None => (ZRem ProcessingSetKey jobID r, None)
  end.

Definition MarkFailed (fault : option error) (now : Z) (jobID : string)
    (retryDelay : Z) (r : Redis) : Redis * option error :=
  match fault with
  | Some e => (r, Some ("failed to mark job as failed: " +:+ e))
  | None =>
      let r1 := ZRem ProcessingSetKey jobID r in
      let r2 :=
        if 0 <? retryDelay
        then ZAdd RetrySetKey jobID (Unix (now + retryDelay)) r1
        else r1 in
      (r2, None)
  end.

Definition GetQueueDepth (key : string) (r : Redis) : Z := LLen key r.

End queue.

(** ** jobManager *)
Module jobManager.
Import entity.

Record CreateJobRequest : Type := mkCreateJobRequest {
  req_Type : string;
  req_Priority : job.Priority;
  req_Payload : option (gmap string JValue);
  req_MaxAttempts : Z;
  req_ScheduledAt : option Z
}.

(** What [CreateJob] reads from outside: the identifier [uuid.New]
    returns, the clock, and the faults of the two stores. *)
Record CreateEnv : Type := mkCreateEnv {
  env_uuid : string;
  env_now : Z;
  env_db_fault : option error;
  env_queue_fault : option error
}.

Definition CreateJob (env : CreateEnv) (req : CreateJobRequest)
    (db : gmap string Job) (r : queue.Redis)
    : gmap string Job * queue.Redis * result Job :=
  if decide (req_Type req = "") then
    (db, r, Err "job type is required"%string)
  else
    let maxAttempts :=
      if req_MaxAttempts req <=? 0 then 3 else req_MaxAttempts req in
    let payload :=
      match req_Payload req with
      | None => Some ∅
      | Some p => Some p
      end in
    let jobEntity :=
      {| ID := env_uuid env; Type_ := req_Type req;
         Priority := req_Priority req; Payload := payload;
         Attempts := 0; MaxAttempts := maxAttempts;
         CreatedAt := env_now env; UpdatedAt := None; DeletedAt := None;
         ScheduledAt := req_ScheduledAt req; StartedAt := None;
         CompletedAt := None; Status := job.Pending; Error := "" |} in
    match jobRepository.Create (env_db_fault env) jobEntity db with
    | (db', Some e) => (db', r, Err ("failed to create job: " +:+ e))
    | (db', None) =>
        match queue.Enqueue (env_queue_fault env) (env_now env) jobEntity r with
        | (r', Some e) => (db', r', Err ("failed to enqueue job: " +:+ e))
        | (r', None) => (db', r', Ok jobEntity)
        end
    end.

Definition GetJob (id : string) (db : gmap string Job) : option Job :=
  jobRepository.GetByID id db.

Definition GetJobsByStatus (status : job.Status) (limit : Z)
    (db : gmap string Job) : list Job :=
  let limit := if limit <=? 0 then 50 else limit in
  jobRepository.GetJobsByStatus status limit db.

End jobManager.

(** ** package worker: the pool *)
Module workerPool.
Import entity.

Section Conversion.

(** [time.Duration(f)] for a float [f] that int64 cannot represent is
    implementation-dependent in Go; the value the platform produces is a
    parameter. *)
Variable conv_overflow : Z.

(** [time.Duration(math.Pow(2, float64(k)))]: powers of two are exact in
    float64, a power below one truncates to zero, a power of 2^63 or more
    (or +Inf) is out of range. *)
Definition pow2_duration (k : Z) : Z :=
  if k <? 0 then 0
  else if k <=? 62 then 2 ^ k
  else conv_overflow.

Definition calculateRetryDelay (attempts : Z) : Z :=
  let baseDelay := 30 * Second in
  let backoff :=
    int64_wrap (pow2_duration (int64_wrap (attempts - 1)) * baseDelay) in
  let maxDelay := 10 * Minute in
  if maxDelay <? backoff then maxDelay else backoff.

End Conversion.

(** *** Statistics.  A Go map is a reference: the heap maps each allocated
    map to its contents, and a struct holds the reference. *)
Record PoolStats : Type := mkPoolStats {
  TotalWorkers : Z;
  ActiveWorkers : Z;
  ProcessingJobs : Z;
  TotalProcessed : Z;
  TotalFailed : Z;
  QueueDepths : positive
}.

Record pool : Type := mkPool {
  workers : Z;
  stats : PoolStats
}.

Definition Heap := gmap positive (gmap string Z).

(** [make(map[string]int64)] *)
Definition make_map (h : gmap positive (gmap string Z))
    : positive * gmap positive (gmap string Z) :=
  let l := fresh (dom h) in (l, <[l := ∅]> h).

(** [m[k]] reads and [m[k] = v] writes through the reference. *)
Definition map_contents (l : positive) (h : gmap positive (gmap string Z))
    : gmap string Z :=
  default ∅ (h !! l).

Definition map_store (l : positive) (k : string) (v : Z)
    (h : gmap positive (gmap string Z)) : gmap positive (gmap string Z) :=
  <[l := <[k := v]> (map_contents l h)]> h.

(** [for k, v := range src { dst[k] = v }] *)
Definition copy_entries (src dst : positive)
    (h : gmap positive (gmap string Z)) : gmap positive (gmap string Z) :=
  map_fold (fun k v acc => map_store dst k v acc) h (map_contents src h).

Definition NewWorkerPool (n : Z) (h : gmap positive (gmap string Z))
    : pool * gmap positive (gmap string Z) :=
  let (l, h') := make_map h in
  ({| workers := n;
      stats := {| TotalWorkers := 0; ActiveWorkers := 0; ProcessingJobs := 0;
                  TotalProcessed := 0; TotalFailed := 0;
                  QueueDepths := l |} |}, h').

Definition GetStats (p : pool) (h : gmap positive (gmap string Z))
    : PoolStats * pool * gmap positive (gmap string Z) :=
  let stats0 := stats p in
  let (l, h1) := make_map h in
  let stats1 :=
    {| TotalWorkers := TotalWorkers stats0;
       ActiveWorkers := ActiveWorkers stats0;
       ProcessingJobs := ProcessingJobs stats0;
       TotalProcessed := TotalProcessed stats0;
       TotalFailed := TotalFailed stats0;
       QueueDepths := l |} in
  let h2 := copy_entries (QueueDepths (stats p)) l h1 in
  (stats1, p, h2).

(** *** The counters ([int] and [int64], both 64-bit). *)

Definition incrementActiveWorkers (s : PoolStats) : PoolStats :=
  {| TotalWorkers := TotalWorkers s;
     ActiveWorkers := int64_wrap (ActiveWorkers s + 1);
     ProcessingJobs := int64_wrap (ProcessingJobs s + 1);
     TotalProcessed := TotalProcessed s;
     TotalFailed := TotalFailed s;
     QueueDepths := QueueDepths s |}.

Definition decrementActiveWorkers (s : PoolStats) : PoolStats :=
  {| TotalWorkers := TotalWorkers s;
     ActiveWorkers :=
       if 0 <? ActiveWorkers s then int64_wrap (ActiveWorkers s - 1)
       else ActiveWorkers s;
     ProcessingJobs :=
       if 0 <? ProcessingJobs s then int64_wrap (ProcessingJobs s - 1)
       else ProcessingJobs s;
     TotalProcessed := TotalProcessed s;
     TotalFailed := TotalFailed s;
     QueueDepths := QueueDepths s |}.

Definition incrementTotalProcessed (s : PoolStats) : PoolStats :=
  {| TotalWorkers := TotalWorkers s;
     ActiveWorkers := ActiveWorkers s;
     ProcessingJobs := ProcessingJobs s;
     TotalProcessed := int64_wrap (TotalProcessed s + 1);
     TotalFailed := TotalFailed s;
     QueueDepths := QueueDepths s |}.

Definition incrementTotalFailed (s : PoolStats) : PoolStats :=
  {| TotalWorkers := TotalWorkers s;
     ActiveWorkers := ActiveWorkers s;
     ProcessingJobs := ProcessingJobs s;
     TotalProcessed := TotalProcessed s;
     TotalFailed := int64_wrap (TotalFailed s + 1);
     QueueDepths := QueueDepths s |}.

(** [collectQueueStats]: the depth of every queue of [GetPriorityQueues]
    is written into the pool's map; a queue whose [LLEN] fails is skipped.
    [faults] gives the fault of the call for each queue name. *)
Definition collectQueueStats (faults : string -> option error)
    (r : queue.Redis) (p : pool) (h : gmap positive (gmap string Z))
    : gmap positive (gmap string Z) :=
  foldl (fun acc queueName =>
           match faults queueName with
           | Some _ => acc
           | None =>
               map_store (QueueDepths (stats p)) queueName
                 (queue.GetQueueDepth queueName r) acc
           end)
        h queue.GetPriorityQueues.

End workerPool.

(** ** The worker service: pool workers, retry scheduler and job manager
    running against one jobs table and one Redis keyspace.

    Every statement sent to the database or to Redis is one atomic step;
    the steps of different goroutines interleave freely.  A worker
    goroutine that has dequeued a job is a pair of its in-memory copy and
    the statement it executes next. *)
Module workerService.
Import entity.

Inductive pc : Type :=
  | AtMarkProcessing
  | AtUpdateJobToProcessing
  | AtHandle
  | AtUpdateJobToCompleted
  | AtMarkCompleted
  | AtHandleJobFailure (jobErr : error)
  | AtMarkFailed (retryDelay : Z).

(** The retry scheduler inside its loop over the jobs it selected. *)
Inductive scan_pc : Type :=
  | AtUpdateStatus
  | AtEnqueue.

Record State : Type := mkState {
  jobs : gmap string Job;
  redis : queue.Redis;
  busy : list (Job * pc);
  scan : list (Job * scan_pc);
  handlerRegistry : gset string
}.

Definition init (registry : gset string) : State :=
  {| jobs := ∅; redis := queue.empty; busy := []; scan := [];
     handlerRegistry := registry |}.

Definition set_jobs (db : gmap string Job) (s : State) : State :=
  {| jobs := db; redis := redis s; busy := busy s; scan := scan s;
     handlerRegistry := handlerRegistry s |}.

Definition set_redis (r : queue.Redis) (s : State) : State :=
  {| jobs := jobs s; redis := r; busy := busy s; scan := scan s;
     handlerRegistry := handlerRegistry s |}.

Definition set_busy (b : list (Job * pc)) (s : State) : State :=
  {| jobs := jobs s; redis := redis s; busy := b; scan := scan s;
     handlerRegistry := handlerRegistry s |}.

Definition set_scan (c : list (Job * scan_pc)) (s : State) : State :=
  {| jobs := jobs s; redis := redis s; busy := busy s; scan := c;
     handlerRegistry := handlerRegistry s |}.

(** What one step reads from outside: the clock, the fault of the
    statement it sends, and (at [AtHandle]) what the handler returns. *)
Record Oracle : Type := mkOracle {
  o_now : Z;
  o_fault : option error;
  o_handle : option error
}.

(** A database statement that may fail in transport: on a fault the table
    is left as it was (the callers below only log the error). *)
Definition exec (fault : option error)
    (stmt : gmap string Job -> gmap string Job) (db : gmap string Job)
    : gmap string Job :=
  match fault with
  | Some _ => db
  | None => stmt db
  end.

Section Steps.
Variable conv_overflow : Z.

(** [runWorker]: one call of [Dequeue]. *)
Definition dequeue_step (o : Oracle) (s : State) : State :=
  match queue.Dequeue (o_fault o) queue.GetPriorityQueues (redis s) with
  | (r, Ok (Some j)) => set_busy ((j, AtMarkProcessing) :: busy s) (set_redis r s)
  | (r, Ok None) => set_redis r s
  | (r, Err _) => set_redis r s
  end.

(** [processJob], [handleJobSuccess] and [handleJobFailure], one statement
    at a time, for the worker at position [i].  The counters of
    [PoolStats] are written here but never read, and are left out. *)
Definition worker_step (o : Oracle) (i : nat) (s : State) : State :=
  match busy s !! i with
  | None => s
  | Some (j, AtMarkProcessing) =>
      match queue.MarkProcessing (o_fault o) (o_now o) (ID j) (redis s) with
      | (_, Some _) => set_busy (delete i (busy s)) s
      | (r, None) =>
          set_busy (<[i := (j, AtUpdateJobToProcessing)]> (busy s))
            (set_redis r s)
      end
  | Some (j, AtUpdateJobToProcessing) =>
      set_busy (<[i := (j, AtHandle)]> (busy s))
        (set_jobs
           (exec (o_fault o)
              (jobRepository.UpdateJobToProcessing (ID j) (o_now o) (o_now o))
              (jobs s)) s)
  | Some (j, AtHandle) =>
      if decide (Type_ j ∈ handlerRegistry s) then
        match o_handle o with
        | Some e => set_busy (<[i := (j, AtHandleJobFailure e)]> (busy s)) s
        | None => set_busy (<[i := (j, AtUpdateJobToCompleted)]> (busy s)) s
        end
      else
        set_busy
          (<[i := (j, AtHandleJobFailure
                        ("no handler found for job type: " +:+ Type_ j))]>
             (busy s)) s
  | Some (j, AtUpdateJobToCompleted) =>
      set_busy (<[i := (j, AtMarkCompleted)]> (busy s))
        (set_jobs
           (exec (o_fault o)
              (jobRepository.UpdateJobToCompleted (ID j) (o_now o) (o_now o))
              (jobs s)) s)
  | Some (j, AtMarkCompleted) =>
      set_busy (delete i (busy s))
        (set_redis (queue.MarkCompleted (o_fault o) (ID j) (redis s)).1 s)
  | Some (j, AtHandleJobFailure jobErr) =>
      let j' := set_Attempts (int64_wrap (Attempts j + 1)) j in
      if MaxAttempts j' <=? Attempts j' then
        set_busy (<[i := (j', AtMarkFailed 0)]> (busy s))
          (set_jobs
             (exec (o_fault o)
                (jobRepository.UpdateJobToFailed (ID j') jobErr (o_now o))
                (jobs s)) s)
      else
        let retryDelay :=
          workerPool.calculateRetryDelay conv_overflow (Attempts j') in
        set_busy (<[i := (j', AtMarkFailed retryDelay)]> (busy s))
          (set_jobs
             (exec (o_fault o)
                (jobRepository.UpdateJobToRetrying (ID j') jobErr (o_now o))
                (jobs s)) s)
  | Some (j, AtMarkFailed retryDelay) =>
      set_busy (delete i (busy s))
        (set_redis
           (queue.MarkFailed (o_fault o) (o_now o) (ID j) retryDelay
              (redis s)).1 s)
  end.

(** [processRetryableJobs]: the query that starts a scan. *)
Definition tick_step (o : Oracle) (s : State) : State :=
  match o_fault o with
  | Some _ => s
  | None =>
      let retryTime := o_now o - 5 * Minute in
      let found := jobRepository.GetRetryableJobs retryTime 100 (jobs s) in
      set_scan (scan s ++ map (fun j => (j, AtUpdateStatus)) found) s
  end.

(** [processRetryableJobs]: one statement of the loop body. *)
Definition scan_step (o : Oracle) (s : State) : State :=
  match scan s with
  | [] => s
  | (j, AtUpdateStatus) :: rest =>
      match o_fault o with
      | Some _ => set_scan rest s
      | None =>
          set_scan ((j, AtEnqueue) :: rest)
            (set_jobs
               (jobRepository.UpdateStatus (ID j) job.Pending "" (o_now o)
                  (jobs s)) s)
      end
  | (j, AtEnqueue) :: rest =>
      set_scan rest
        (set_redis (queue.Enqueue (o_fault o) (o_now o) j (redis s)).1 s)
  end.

Definition create_step (env : jobManager.CreateEnv)
    (req : jobManager.CreateJobRequest) (s : State) : State :=
  match jobManager.CreateJob env req (jobs s) (redis s) with
  | (db, r, _) => set_redis r (set_jobs db s)
  end.

Inductive Event : Type :=
  | EvCreateJob (env : jobManager.CreateEnv) (req : jobManager.CreateJobRequest)
  | EvDequeue (o : Oracle)
  | EvWorker (i : nat) (o : Oracle)
  | EvTick (o : Oracle)
  | EvScan (o : Oracle).

Definition step (ev : Event) (s : State) : State :=
  match ev with
  | EvCreateJob env req => create_step env req s
  | EvDequeue o => dequeue_step o s
  | EvWorker i o => worker_step o i s
  | EvTick o => tick_step o s
  | EvScan o => scan_step o s
  end.

(** The state after a schedule (a list of events, first event first). *)
Definition run (evs : list Event) (s : State) : State :=
  foldl (fun st ev => step ev st) s evs.

End Steps.

End workerService.

(** ** package sqs: the listener and the job-manager bridge *)
Module sqs.
Import entity.

(** [SqsMessage]; [Payload interface{}] is [None] when the field is absent
    or [null]. *)
Record SqsMessage : Type := mkSqsMessage {
  msg_Type : string;
  msg_Payload : option JValue
}.

(** A message body: text that [json.Unmarshal] decodes into an
    [SqsMessage], or text that it rejects. *)
Inductive Body : Type :=
  | BodyJSON (m : SqsMessage)
  | BodyText (s : string).

Record Message : Type := mkMessage {
  MessageId : option string;
  ReceiptHandle : string;
  MessageBody : Body;
  MessageAttributes : gmap string string
}.

(** The broker: the (queue, receipt handle) pairs not yet deleted. *)
Definition DeleteMessage (fault : option error) (queueURL receiptHandle : string)
    (b : gset (string * string)) : gset (string * string) * option error :=
  match fault with
  | Some e => (b, Some e)
  | None => (b ∖ {[ (queueURL, receiptHandle) ]}, None)
  end.

Definition Claim : string := "claim".
Definition KYCVerification : string := "kyc.verification".

Definition getMessageID (message : Message) : string :=
  default "unknown"%string (MessageId message).

Definition getMessageAttribute (message : Message) (key : string) : string :=
  default ""%string (MessageAttributes message !! key).

Definition validateMessage (m : SqsMessage) : option error :=
  if decide (msg_Type m = "") then
    Some "message missing required 'type' field"%string
  else
    match msg_Payload m with
    | None => Some "message missing required 'payload' field"%string
    | Some _ => None
    end.

(** Marshal and unmarshal into [map[string]interface{}]: an object gives
    its map, [null] gives the nil map, anything else is an error. *)
Definition convertPayloadToMap (payload : JValue)
    : result (option (gmap string JValue)) :=
  match payload with
  | JObj fields => Ok (Some fields)
  | JNull => Ok None
  | _ => Err "failed to unmarshal payload: json: cannot unmarshal into Go value of type map[string]interface {}"%string
  end.

Definition sqs_metadata (messageID queueURL : string) : JValue :=
  JObj (<["sqs_message_id"%string := JStr messageID]>
          (<["sqs_queue_url"%string := JStr queueURL]> ∅)).

(** [createJobFromMessage] with [addSQSMetadata] inlined.  Only [Type] and
    [Payload] of the job literal are set.  Writing into a nil map panics;
    [validateMessage] has excluded that case before. *)
Definition createJobFromMessage (m : SqsMessage)
    (messageID queueURL : string) : result Job :=
  match convertPayloadToMap (default JNull (msg_Payload m)) with
  | Err e => Err e
  | Ok None => Err "panic: assignment to entry in nil map"%string
  | Ok (Some payloadMap) =>
      Ok {| ID := ""; Type_ := msg_Type m; Priority := 0;
            Payload :=
              Some (<["_sqs_metadata"%string :=
                       sqs_metadata messageID queueURL]> payloadMap);
            Attempts := 0; MaxAttempts := 0; CreatedAt := 0;
            UpdatedAt := None; DeletedAt := None; ScheduledAt := None;
            StartedAt := None; CompletedAt := None;
            Status := job.Pending; Error := "" |}
  end.

Definition shouldRetry (j : Job) (err : error) : bool :=
  if MaxAttempts j <=? Attempts j then false
  else if decide (err = "invalid_payload") then false
  else if decide (err = "malformed_data") then false
  else if decide (err = "authentication_failed") then false
  else true.

(** [Queue.CalculateRetryDelay] of the SQS queue, with the delays of its
    configuration; [pow] is the conversion of the power of two, as in the
    worker pool. *)
Definition CalculateRetryDelay (pow : Z -> Z) (baseRetryDelay maxRetryDelay : Z)
    (attempt : Z) : Z :=
  if attempt <=? 0 then baseRetryDelay
  else
    let delay := int64_wrap (baseRetryDelay * pow (int64_wrap (attempt - 1))) in
    if maxRetryDelay <? delay then maxRetryDelay else delay.

(** *** JobManagerBridge *)

Definition convertEventTypeToJobType (eventType : string) : string :=
  if decide (eventType = Claim) then job.InitClaim
  else if decide (eventType = KYCVerification) then job.KYCVerification
  else eventType.

Definition sqs_source (sqsEvent : Job) : JValue :=
  JObj (<["original_event_type"%string := JStr (Type_ sqsEvent)]>
          (<["sqs_event_id"%string := JStr (ID sqsEvent)]> ∅)).

(** The request the bridge builds by reflection. *)
Definition bridgeRequest (sqsEvent : Job) : jobManager.CreateJobRequest :=
  let workerJobType := convertEventTypeToJobType (Type_ sqsEvent) in
  let payload :=
    <["_sqs_source"%string := sqs_source sqsEvent]>
      (default ∅ (Payload sqsEvent)) in
  {| jobManager.req_Type := workerJobType;
     jobManager.req_Priority := Priority sqsEvent;
     jobManager.req_Payload := Some payload;
     jobManager.req_MaxAttempts := MaxAttempts sqsEvent;
     jobManager.req_ScheduledAt := None |}.

(** The stores the listener reaches: jobs table, Redis, broker. *)
Record World : Type := mkWorld {
  w_jobs : gmap string Job;
  w_redis : queue.Redis;
  w_broker : gset (string * string)
}.

(** [JobManagerBridge.HandleMessage]; the second component is the job
    that was admitted, if any. *)
Definition HandleMessage (env : jobManager.CreateEnv) (sqsEvent : Job)
    (w : World) : World * option Job * option error :=
  match jobManager.CreateJob env (bridgeRequest sqsEvent)
          (w_jobs w) (w_redis w) with
  | (db, r, Err e) =>
      ({| w_jobs := db; w_redis := r; w_broker := w_broker w |}, None,
       Some ("failed to create job via job manager: " +:+ e))
  | (db, r, Ok workerJob) =>
      ({| w_jobs := db; w_redis := r; w_broker := w_broker w |},
       Some workerJob, None)
  end.

(** *** Listener *)

Definition deleteMessage (fault : option error) (queueURL receiptHandle : string)
    (w : World) : World * option error :=
  let (b, e) := DeleteMessage fault queueURL receiptHandle (w_broker w) in
  ({| w_jobs := w_jobs w; w_redis := w_redis w; w_broker := b |}, e).

Definition parseMessage (del_fault : option error) (queueURL : string)
    (message : Message) (w : World) : World * result SqsMessage :=
  match MessageBody message with
  | BodyText _ =>
      ((deleteMessage del_fault queueURL (ReceiptHandle message) w).1,
       Err "failed to unmarshal SQS message: invalid character"%string)
  | BodyJSON m =>
      match validateMessage m with
      | Some e =>
          ((deleteMessage del_fault queueURL (ReceiptHandle message) w).1,
           Err e)
      | None => (w, Ok m)
      end
  end.

Definition handleJobAndCleanup (env : jobManager.CreateEnv)
    (del_fault : option error) (queueURL : string) (message : Message)
    (eventJob : Job) (w : World) : World * option Job * option error :=
  match HandleMessage env eventJob w with
  | (w1, _, Some err) =>
      if shouldRetry eventJob err then (w1, None, None)
      else
        ((deleteMessage del_fault queueURL (ReceiptHandle message) w1).1,
         None, Some err)
  | (w1, admitted, None) =>
      match deleteMessage del_fault queueURL (ReceiptHandle message) w1 with
      | (w2, Some e) =>
          (w2, admitted, Some ("failed to delete processed message: " +:+ e))
      | (w2, None) => (w2, admitted, None)
      end
  end.

Definition processMessage (env : jobManager.CreateEnv)
    (del_fault : option error) (queueURL : string) (message : Message)
    (w : World) : World * option Job * option error :=
  let messageID := getMessageID message in
  match parseMessage del_fault queueURL message w with
  | (w1, Err e) => (w1, None, Some e)
  | (w1, Ok sqsMessage) =>
      match createJobFromMessage sqsMessage messageID queueURL with
      | Err e =>
          ((deleteMessage del_fault queueURL (ReceiptHandle message) w1).1,
           None, Some e)
      | Ok eventJob =>
          handleJobAndCleanup env del_fault queueURL message eventJob w1
      end
  end.

End sqs.

(** ** SessionRepository: the statements over the sessions table *)
Module sessionRepository.

(** The columns the refresh flow reads or writes ([user_agent],
    [ip_address] and [updated_at] are never read). *)
Record Session : Type := mkSession {
  ID : string;
  UserID : string;
  Token : string;
  Revoked : bool;
  ExpiresAt : option Z;
  CreatedAt : Z;
  DeletedAt : option Z
}.

Definition revoke (now : Z) (s : Session) : Session :=
  {| ID := ID s; UserID := UserID s; Token := Token s; Revoked := true;
     ExpiresAt := ExpiresAt s; CreatedAt := CreatedAt s;
     DeletedAt := Some now |}.

Definition tombstone (now : Z) (s : Session) : Session :=
  {| ID := ID s; UserID := UserID s; Token := Token s; Revoked := Revoked s;
     ExpiresAt := ExpiresAt s; CreatedAt := CreatedAt s;
     DeletedAt := Some now |}.

Definition live (s : Session) : bool := bool_decide (DeletedAt s = None).

(** [UPDATE sessions SET ... WHERE <cond> AND deleted_at IS NULL]; a fault
    leaves the table as it was. *)
Definition update_where (fault : option error) (cond : Session -> bool)
    (f : Session -> Session) (t : list Session) : list Session * option error :=
  match fault with
  | Some e => (t, Some e)
  | None => (map (fun s => if cond s && live s then f s else s) t, None)
  end.

Definition RevokeByToken (fault : option error) (token : string) (now : Z)
    (t : list Session) : list Session * option error :=
  update_where fault (fun s => bool_decide (Token s = token)) (revoke now) t.

Definition RevokeByUserID (fault : option error) (userID : string) (now : Z)
    (t : list Session) : list Session * option error :=
  update_where fault (fun s => bool_decide (UserID s = userID)) (revoke now) t.

Definition DeleteByID (fault : option error) (id : string) (now : Z)
    (t : list Session) : list Session * option error :=
  update_where fault (fun s => bool_decide (ID s = id)) (tombstone now) t.

Definition DeleteByUserID (fault : option error) (userID : string) (now : Z)
    (t : list Session) : list Session * option error :=
  update_where fault (fun s => bool_decide (UserID s = userID))
    (tombstone now) t.

Definition FindByToken (fault : option error) (token : string)
    (t : list Session) : result Session :=
  match fault with
  | Some e => Err e
  | None =>
      match List.filter (fun s => bool_decide (Token s = token) && live s) t with
      | s :: _ => Ok s
      | [] => Err "sql: no rows in result set"%string
      end
  end.

(** What [Insert] reads from outside: the clock, the key the database
    generates, and the fault of each of its three statements. *)
Record InsertEnv : Type := mkInsertEnv {
  ie_now : Z;
  ie_new_id : string;
  ie_revoke_token_fault : option error;
  ie_revoke_user_fault : option error;
  ie_insert_fault : option error
}.

(** [Insert]: the errors of the two revocations are discarded; the insert
    fails on a primary-key conflict or when any row, tombstoned or not,
    holds the same token ([token TEXT NOT NULL UNIQUE]). *)
Definition Insert (env : InsertEnv) (session : Session) (t : list Session)
    : list Session * result Session :=
  let t1 := (RevokeByToken (ie_revoke_token_fault env) (Token session)
               (ie_now env) t).1 in
  let t2 := (RevokeByUserID (ie_revoke_user_fault env) (UserID session)
               (ie_now env) t1).1 in
  match ie_insert_fault env with
  | Some e => (t2, Err e)
  | None =>
      if existsb (fun s => bool_decide (Token s = Token session)
                           || bool_decide (ID s = ie_new_id env)) t2
      then (t2, Err "duplicate key value violates unique constraint"%string)
      else
        let row :=
          {| ID := ie_new_id env; UserID := UserID session;
             Token := Token session; Revoked := Revoked session;
             ExpiresAt := ExpiresAt session; CreatedAt := ie_now env;
             DeletedAt := DeletedAt session |} in
        (t2 ++ [row], Ok row)
  end.

End sessionRepository.

(** ** DefaultAuthManager: the refresh-token flow *)
Module authManager.
Import sessionRepository.

Definition ErrInvalidCredentials : error := "invalid credentials".
Definition ErrInvalidRefreshToken : error := "invalid refresh token".
Definition ErrRefreshTokenExpired : error := "refresh token has expired".
Definition ErrRefreshTokenRevoked : error := "refresh token has been revoked".

(** What one manager call reads from outside.  [a_user] is the user the
    lookup returns ([FindByEmail] with a matching password on login,
    [FindByID] on refresh), [a_access] whether the access token could be
    generated, [a_refresh] the pair (signed token, random handle in
    base64) that [GenerateRefreshToken] returns. *)
Record Env : Type := mkEnv {
  a_insert : InsertEnv;
  a_user : option string;
  a_access : bool;
  a_refresh : option (string * string);
  a_refresh_expiration : Z;
  a_find_fault : option error;
  a_revoke_fault : option error
}.

Section Hash.

(** [hex.EncodeToString(sha256.Sum256(raw))] *)
Variable hash : string -> string.

Definition createSession (env : Env) (userID : string) (t : list Session)
    : list Session * result string :=
  match a_refresh env with
  | None => (t, Err "failed to generate refresh token"%string)
  | Some (token, tokenBase64) =>
      let exp := ie_now (a_insert env) + a_refresh_expiration env in
      match Insert (a_insert env)
              {| ID := ""; UserID := userID; Token := hash tokenBase64;
                 Revoked := false; ExpiresAt := Some exp; CreatedAt := 0;
                 DeletedAt := None |} t with
      | (t', Err e) => (t', Err e)
      | (t', Ok _) => (t', Ok token)
      end
  end.

Definition validateSession (env : Env) (token : string) (t : list Session)
    : result Session :=
  match FindByToken (a_find_fault env) token t with
  | Err e =>
      if decide (e = "sql: no rows in result set") then Err ErrInvalidRefreshToken
      else Err ("failed to find session: " +:+ e)
  | Ok session =>
      if Revoked session then Err ErrRefreshTokenRevoked
      else
        match ExpiresAt session with
        | Some exp =>
            if exp <? ie_now (a_insert env) then Err ErrRefreshTokenExpired
            else Ok session
        | None => Ok session
        end
  end.

(** [claims] is the handle carried by the presented token: [None] when
    [ValidateToken] fails or the claim is missing. *)
Definition Logout (env : Env) (claims : option string) (t : list Session)
    : list Session * option error :=
  match claims with
  | None => (t, Some ErrInvalidRefreshToken)
  | Some raw =>
      if decide (raw = "") then (t, Some ErrInvalidRefreshToken)
      else
        match RevokeByToken (a_revoke_fault env) (hash raw)
                (ie_now (a_insert env)) t with
        | (t', Some e) => (t', Some ("failed to revoke session: " +:+ e))
        | (t', None) => (t', None)
        end
  end.

Definition Login (env : Env) (t : list Session)
    : list Session * result string :=
  match a_user env with
  | None => (t, Err ErrInvalidCredentials)
  | Some userID =>
      if a_access env then createSession env userID t
      else (t, Err "failed to generate access token"%string)
  end.

Definition RefreshToken (env : Env) (claims : option string)
    (t : list Session) : list Session * result string :=
  match claims with
  | None => (t, Err ErrInvalidRefreshToken)
  | Some raw =>
      if decide (raw = "") then (t, Err ErrInvalidRefreshToken)
      else
        match validateSession env (hash raw) t with
        | Err e => (t, Err e)
        | Ok session =>
            match a_user env with
            | None => (t, Err "failed to find user"%string)
            | Some _ =>
                if a_access env then
                  match createSession env (UserID session) t with
                  | (t', Err e) => (t', Err e)
                  | (t', Ok newRefreshTokenString) =>
                      ((RevokeByToken (a_revoke_fault env) (hash raw)
                          (ie_now (a_insert env)) t').1,
                       Ok newRefreshTokenString)
                  end
                else (t, Err "failed to generate access token"%string)
            end
        end
  end.

Inductive Op : Type :=
  | OpLogin (env : Env)
  | OpRefresh (env : Env) (claims : option string)
  | OpLogout (env : Env) (claims : option string).

Definition apply (op : Op) (t : list Session) : list Session :=
  match op with
  | OpLogin env => (Login env t).1
  | OpRefresh env claims => (RefreshToken env claims t).1
  | OpLogout env claims => (Logout env claims t).1
  end.

Definition run (ops : list Op) (t : list Session) : list Session :=
  foldl (fun st op => apply op st) t ops.


End Hash.

(** The rows that count as an active session of [userID]. *)
Definition active (userID : string) (s : Session) : bool :=
  bool_decide (UserID s = userID) && negb (Revoked s)
  && bool_decide (DeletedAt s = None).

Definition active_count (userID : string) (t : list Session) : nat :=
  length (List.filter (active userID) t).



End authManager.

(** ** Sample inputs *)

Definition sample_env : jobManager.CreateEnv :=
  {| jobManager.env_uuid := "j1"; jobManager.env_now := 5;
     jobManager.env_db_fault := None; jobManager.env_queue_fault := None |}.

Definition sample_req : jobManager.CreateJobRequest :=
  {| jobManager.req_Type := "kyc_verification";
     jobManager.req_Priority := job.PriorityNormal;
     jobManager.req_Payload := None;
     jobManager.req_MaxAttempts := 3;
     jobManager.req_ScheduledAt := None |}.

Definition sample_db : gmap string entity.Job :=
  (jobManager.CreateJob sample_env sample_req ∅ queue.empty).1.1.

Definition failed_then_completed : gmap string entity.Job :=
  jobRepository.UpdateJobToCompleted "j1" 20 20
    (jobRepository.UpdateJobToRetrying "j1" "boom" 10 sample_db).

Definition scheduled_req : jobManager.CreateJobRequest :=
  {| jobManager.req_Type := "init_claim";
     jobManager.req_Priority := job.PriorityHigh;
     jobManager.req_Payload := None;
     jobManager.req_MaxAttempts := 3;
     jobManager.req_ScheduledAt := Some (5 + 100) |}.

Definition scheduled_job : entity.Job :=
  {| entity.ID := "j1"; entity.Type_ := "init_claim";
     entity.Priority := job.PriorityHigh; entity.Payload := Some ∅;
     entity.Attempts := 0; entity.MaxAttempts := 3;
     entity.CreatedAt := 5; entity.UpdatedAt := None;
     entity.DeletedAt := None; entity.ScheduledAt := Some (5 + 100);
     entity.StartedAt := None; entity.CompletedAt := None;
     entity.Status := job.Pending; entity.Error := "" |}.

Definition scheduled_db : gmap string entity.Job :=
  (jobManager.CreateJob sample_env scheduled_req ∅ queue.empty).1.1.

Definition mk_pending (id : string) (priority created : Z) : entity.Job :=
  {| entity.ID := id; entity.Type_ := "init_claim";
     entity.Priority := priority; entity.Payload := Some ∅;
     entity.Attempts := 0; entity.MaxAttempts := 3;
     entity.CreatedAt := created; entity.UpdatedAt := None;
     entity.DeletedAt := None; entity.ScheduledAt := None;
     entity.StartedAt := None; entity.CompletedAt := None;
     entity.Status := job.Pending; entity.Error := "" |}.

Definition mixed_db : gmap string entity.Job :=
  <["a" := mk_pending "a" job.PriorityLow 1]>
    (<["b" := mk_pending "b" job.PriorityCritical 9]>
       (<["c" := mk_pending "c" job.PriorityNormal 3]>
          (<["d" := mk_pending "d" job.PriorityCritical 2]>
             (<["e" := scheduled_job]> ∅)))).

Definition poisoned_redis : queue.Redis :=
  queue.LPush queue.QueueKey (queue.WJob scheduled_job)
    (queue.LPush queue.QueueKey (queue.WText "{not a job") queue.empty).

Definition sample_heap : gmap positive (gmap string Z) :=
  <[1%positive := <["{jobs}:queue"%string := 7]> ∅]> ∅.

Definition sample_pool : workerPool.pool :=
  {| workerPool.workers := 2;
     workerPool.stats :=
       {| workerPool.TotalWorkers := 2; workerPool.ActiveWorkers := 1;
          workerPool.ProcessingJobs := 1; workerPool.TotalProcessed := 4;
          workerPool.TotalFailed := 1; workerPool.QueueDepths := 1%positive |} |}.

Definition claim_message : sqs.Message :=
  {| sqs.MessageId := Some "m-1"%string;
     sqs.ReceiptHandle := "rh-1";
     sqs.MessageBody :=
       sqs.BodyJSON
         {| sqs.msg_Type := "claim";
            sqs.msg_Payload :=
              Some (JObj (<["user"%string := JStr "ext1"]>
                            (<["amount"%string := JNum 1000]> ∅))) |};
     sqs.MessageAttributes :=
       <["JobType"%string := "claim"%string]>
         (<["Source"%string := "external_service"%string]> ∅) |}.

Definition unmapped_message : sqs.Message :=
  {| sqs.MessageId := Some "m-2"%string;
     sqs.ReceiptHandle := "rh-2";
     sqs.MessageBody :=
       sqs.BodyJSON
         {| sqs.msg_Type := "wallet.sync";
            sqs.msg_Payload := Some (JObj ∅) |};
     sqs.MessageAttributes := ∅ |}.

Definition sample_queue_url : string := "http://localhost:4566/000000000000/jobs".

Definition sample_world : sqs.World :=
  {| sqs.w_jobs := ∅; sqs.w_redis := queue.empty;
     sqs.w_broker :=
       {[ (sample_queue_url, "rh-1"%string); (sample_queue_url, "rh-2"%string) ]} |}.

Definition failing_env (e : error) : jobManager.CreateEnv :=
  {| jobManager.env_uuid := "j1"; jobManager.env_now := 5;
     jobManager.env_db_fault := Some e; jobManager.env_queue_fault := None |}.

(** A toy stand-in for the SHA-256 hex digest, for the sample runs. *)
Definition sample_hash (raw : string) : string := ("h:" +:+ raw)%string.

Definition auth_env (now : Z) (id userID token handle : string)
    : authManager.Env :=
  {| authManager.a_insert :=
       {| sessionRepository.ie_now := now;
          sessionRepository.ie_new_id := id;
          sessionRepository.ie_revoke_token_fault := None;
          sessionRepository.ie_revoke_user_fault := None;
          sessionRepository.ie_insert_fault := None |};
     authManager.a_user := Some userID;
     authManager.a_access := true;
     authManager.a_refresh := Some (token, handle);
     authManager.a_refresh_expiration := 1000;
     authManager.a_find_fault := None;
     authManager.a_revoke_fault := None |}.

(** Login of u1, login of u2, refresh of u1's token, logout of u2. *)
Definition sample_ops : list authManager.Op :=
  [ authManager.OpLogin (auth_env 10 "s1" "u1" "R1" "H1");
    authManager.OpLogin (auth_env 20 "s2" "u2" "R2" "H2");
    authManager.OpRefresh (auth_env 30 "s3" "u1" "R3" "H3") (Some "H1"%string);
    authManager.OpLogout (auth_env 40 "s4" "u2" "R4" "H4") (Some "H2"%string) ].

(** ** Bookkeeping for the worker service: the copies of a job that can
    still reach a database statement *)

Definition decode (w : queue.wire) : option entity.Job :=
  match queue.json_Unmarshal w with
  | Ok j => Some j
  | Err _ => None
  end.

(** A worker past its last database statement only talks to Redis. *)
Definition ahead (p : workerService.pc) : bool :=
  match p with
  | workerService.AtMarkCompleted => false
  | workerService.AtMarkFailed _ => false
  | _ => true
  end.

Definition held (b : entity.Job * workerService.pc) : option entity.Job :=
  if ahead b.2 then Some b.1 else None.

Definition pending_copies (s : workerService.State) : list entity.Job :=
  omap decode (queue.list_at queue.QueueKey (workerService.redis s))
  ++ omap held (workerService.busy s).

Definition row_ok (id : string) (j : entity.Job) : Prop :=
  entity.ID j = id /\
  1 <= entity.MaxAttempts j /\
  0 <= entity.Attempts j <= 1 /\
  (entity.Status j = job.Failed -> entity.MaxAttempts j <= entity.Attempts j) /\
  (entity.Status j = job.Completed ->
     is_Some (entity.CompletedAt j) /\ entity.Error j = ""%string).

Definition copy_ok (db : gmap string entity.Job) (c : entity.Job) : Prop :=
  entity.Attempts c = 0 /\
  exists j,
    db !! entity.ID c = Some j /\
    entity.Attempts j = 0 /\
    entity.MaxAttempts j = entity.MaxAttempts c /\
    entity.Error j = ""%string.

Record Inv (s : workerService.State) : Prop := mkInv {
  inv_rows : forall id j, workerService.jobs s !! id = Some j -> row_ok id j;
  inv_nodup : NoDup (entity.ID <$> pending_copies s);
  inv_copies : Forall (copy_ok (workerService.jobs s)) (pending_copies s);
  inv_scan : workerService.scan s = []
}.

(** The stored attempts of every job only grow from [db] to [db']. *)
Definition attempts_grow (db db' : gmap string entity.Job) : Prop :=
  forall id j,
    db !! id = Some j ->
    exists j',
      db' !! id = Some j' /\
      entity.Attempts j <= entity.Attempts j' /\
      entity.MaxAttempts j' = entity.MaxAttempts j.

Definition quiet (now : Z) : workerService.Oracle :=
  {| workerService.o_now := now; workerService.o_fault := None;
     workerService.o_handle := None |}.

Definition failing (now : Z) (e : error) : workerService.Oracle :=
  {| workerService.o_now := now; workerService.o_fault := None;
     workerService.o_handle := Some e |}.

Definition single_attempt_req : jobManager.CreateJobRequest :=
  {| jobManager.req_Type := "init_claim";
     jobManager.req_Priority := job.PriorityHigh;
     jobManager.req_Payload := None;
     jobManager.req_MaxAttempts := 1;
     jobManager.req_ScheduledAt := None |}.

Definition sample_registry : gset string :=
  {[ job.InitClaim; job.CompleteClaim; job.KYCVerification ]}.

(** One worker takes the job through a failing handler. *)
Definition worker_fails : list workerService.Event :=
  [ workerService.EvDequeue (quiet 6);
    workerService.EvWorker 0 (quiet 7);
    workerService.EvWorker 0 (quiet 8);
    workerService.EvWorker 0 (failing 9 "boom");
    workerService.EvWorker 0 (quiet 10);
    workerService.EvWorker 0 (quiet 11) ].

Definition failing_schedule : list workerService.Event :=
  workerService.EvCreateJob sample_env single_attempt_req :: worker_fails.

Definition retrying_schedule : list workerService.Event :=
  workerService.EvCreateJob sample_env sample_req :: worker_fails.

(** The scheduler's tick and loop, an hour later, and one more dequeue. *)
Definition later_scan : list workerService.Event :=
  [ workerService.EvTick (quiet (3600 * Second));
    workerService.EvScan (quiet (3600 * Second));
    workerService.EvScan (quiet (3600 * Second));
    workerService.EvDequeue (quiet (3601 * Second)) ].

Definition faulty_revocation_env : authManager.Env :=
  {| authManager.a_insert :=
       {| sessionRepository.ie_now := 20;
          sessionRepository.ie_new_id := "s2";
          sessionRepository.ie_revoke_token_fault := None;
          sessionRepository.ie_revoke_user_fault := Some "context deadline exceeded"%string;
          sessionRepository.ie_insert_fault := None |};
     authManager.a_user := Some "u1"%string;
     authManager.a_access := true;
     authManager.a_refresh := Some ("R2"%string, "H2"%string);
     authManager.a_refresh_expiration := 1000;
     authManager.a_find_fault := None;
     authManager.a_revoke_fault := None |}.

(** ** Derived notions used by the properties of the stores *)

(** Every revoked row of the sessions table carries a tombstone. *)
Definition revoked_are_tombstoned (t : list sessionRepository.Session) : Prop :=
  Forall (fun s => sessionRepository.Revoked s = true ->
                   sessionRepository.DeletedAt s <> None) t.

(** [Enqueue] of each job in turn, first job first. *)
Definition enqueue_all (now : Z) (js : list entity.Job) (r : queue.Redis)
    : queue.Redis :=
  foldl (fun acc j => (queue.Enqueue None now j acc).1) r js.

(** [n] calls of [Dequeue], with their results in call order. *)
Fixpoint dequeue_n (n : nat) (r : queue.Redis)
    : list (result (option entity.Job)) * queue.Redis :=
  match n with
  | O => ([], r)
  | S n' =>
      let (r1, res) := queue.Dequeue None queue.GetPriorityQueues r in
      let (rest, r2) := dequeue_n n' r1 in
      (res :: rest, r2)
  end.

(** A status that the worker pool never leaves again. *)
Definition settled (st : job.Status) : Prop :=
  st = job.Completed \/ st = job.Failed \/ st = job.Retrying.

(** The row of a copy that can still reach a database statement has not
    been finalized. *)
Definition copy_open (db : gmap string entity.Job) (c : entity.Job) : Prop :=
  exists j,
    db !! entity.ID c = Some j /\
    (entity.Status j = job.Pending \/ entity.Status j = job.Processing).

(** The sessions table after u1 has logged in with handle H1. *)
Definition table_after_login : list sessionRepository.Session :=
  (authManager.Login sample_hash (auth_env 10 "s1" "u1" "R1" "H1") []).1.

Definition sample_session : sessionRepository.Session :=
  {| sessionRepository.ID := ""; sessionRepository.UserID := "u1";
     sessionRepository.Token := "h:H9"; sessionRepository.Revoked := false;
     sessionRepository.ExpiresAt := Some 2000;
     sessionRepository.CreatedAt := 0;
     sessionRepository.DeletedAt := None |}.

Definition sample_insert_env (id : string) (fault : option error)
    : sessionRepository.InsertEnv :=
  {| sessionRepository.ie_now := 50;
     sessionRepository.ie_new_id := id;
     sessionRepository.ie_revoke_token_fault := None;
     sessionRepository.ie_revoke_user_fault := None;
     sessionRepository.ie_insert_fault := fault |}.

Definition mk_failed (id : string) (priority attempts updated : Z)
    : entity.Job :=
  {| entity.ID := id; entity.Type_ := "kyc_verification";
     entity.Priority := priority; entity.Payload := Some ∅;
     entity.Attempts := attempts; entity.MaxAttempts := 3;
     entity.CreatedAt := 1; entity.UpdatedAt := Some updated;
     entity.DeletedAt := None; entity.ScheduledAt := None;
     entity.StartedAt := Some 2; entity.CompletedAt := None;
     entity.Status := job.Failed; entity.Error := "boom" |}.

(** Failed rows as an operator could leave them: two with attempts left,
    one exhausted. *)
Definition failed_db : gmap string entity.Job :=
  <["f1" := mk_failed "f1" job.PriorityNormal 1 100]>
    (<["f2" := mk_failed "f2" job.PriorityHigh 2 200]>
       (<["f3" := mk_failed "f3" job.PriorityCritical 3 50]>
          (<["p1" := mk_pending "p1" job.PriorityLow 7]> ∅))).

Definition tombstoned_job : entity.Job :=
  {| entity.ID := "d1"; entity.Type_ := "init_claim";
     entity.Priority := job.PriorityNormal; entity.Payload := Some ∅;
     entity.Attempts := 0; entity.MaxAttempts := 3;
     entity.CreatedAt := 1; entity.UpdatedAt := None;
     entity.DeletedAt := Some 9; entity.ScheduledAt := None;
     entity.StartedAt := None; entity.CompletedAt := None;
     entity.Status := job.Pending; entity.Error := "" |}.

Definition tombstoned_db : gmap string entity.Job :=
  <["d1" := tombstoned_job]> ∅.

(** A payload the listener cannot turn into a job: absent, or a JSON
    value that is neither an object nor [null] (the decoder never yields
    [Some JNull]: it reports [null] as an absent payload). *)
Definition bad_payload (v : option JValue) : bool :=
  match v with
  | None => true
  | Some (JObj _) => false
  | Some JNull => false
  | Some _ => true
  end.

(** A poison message: a body that is not JSON, an empty type, or a bad
    payload. *)
Definition poison (message : sqs.Message) : Prop :=
  match sqs.MessageBody message with
  | sqs.BodyText _ => True
  | sqs.BodyJSON m =>
      sqs.msg_Type m = ""%string \/ bad_payload (sqs.msg_Payload m) = true
  end.

Definition poison_message : sqs.Message :=
  {| sqs.MessageId := Some "m-3"%string;
     sqs.ReceiptHandle := "rh-2";
     sqs.MessageBody :=
       sqs.BodyJSON
         {| sqs.msg_Type := "claim"; sqs.msg_Payload := Some (JStr "oops") |};
     sqs.MessageAttributes := ∅ |}.

(** Every pending copy has a row that has not been finalized. *)
Definition open_copies (s : workerService.State) : Prop :=
  Forall (copy_open (workerService.jobs s)) (pending_copies s).

(** A worker that is about to record the failure of job j1. *)
Definition failure_state : workerService.State :=
  {| workerService.jobs := {[ "j1"%string := mk_pending "j1" job.PriorityHigh 5 ]};
     workerService.redis := queue.empty;
     workerService.busy :=
       [ (mk_pending "j1" job.PriorityHigh 5,
          workerService.AtHandleJobFailure "boom") ];
     workerService.scan := [];
     workerService.handlerRegistry := sample_registry |}.

(** A body as the decoder produces it: a [null] payload is reported as an
    absent one, never as the JSON value [null]. *)
Definition decoded (message : sqs.Message) : Prop :=
  match sqs.MessageBody message with
  | sqs.BodyText _ => True
  | sqs.BodyJSON m => sqs.msg_Payload m <> Some JNull
  end.

(** Job j1 is stored and waits in the queue; no worker is busy. *)
Definition queued_state : workerService.State :=
  {| workerService.jobs := {[ "j1"%string := mk_pending "j1" job.PriorityHigh 5 ]};
     workerService.redis :=
       (queue.Enqueue None 5 (mk_pending "j1" job.PriorityHigh 5)
          queue.empty).1;
     workerService.busy := [];
     workerService.scan := [];
     workerService.handlerRegistry := sample_registry |}.

(** * Properties *)

(** ** Backoff of the worker pool *)

Lemma int64_wrap_small (z : Z) :
  - 2 ^ 63 <= z < 2 ^ 63 -> int64_wrap z = z.
Proof.
  intros Hz. unfold int64_wrap.
  rewrite Z.mod_small by lia. lia.
Qed.

Lemma pow2_bound (k : Z) : 0 <= k <= 28 -> 0 < 2 ^ k <= 2 ^ 28.
Proof.
  intros Hk. split.
  - apply Z.pow_pos_nonneg; lia.
  - apply Z.pow_le_mono_r; lia.
Qed.

(** Inside the range where the product fits 64 bits the pool follows the
    backoff law. *)
Lemma calculateRetryDelay_law (conv_overflow attempts : Z) :
  1 <= attempts <= 29 ->
  workerPool.calculateRetryDelay conv_overflow attempts =
    Z.min (30 * Second * 2 ^ (attempts - 1)) (10 * Minute).
Proof.
  intros Ha. unfold workerPool.calculateRetryDelay, workerPool.pow2_duration.
  rewrite (int64_wrap_small (attempts - 1)) by lia.
  destruct (Z.ltb_spec (attempts - 1) 0) as [Hneg|_]; [lia|].
  destruct (Z.leb_spec (attempts - 1) 62) as [_|Hbig]; [|lia].
  pose proof (pow2_bound (attempts - 1) ltac:(lia)) as Hp.
  assert (H28 : 2 ^ 28 = 268435456) by reflexivity.
  assert (H63 : 2 ^ 63 = 9223372036854775808) by reflexivity.
  unfold Minute, Second in *.
  rewrite int64_wrap_small by lia.
  destruct (Z.ltb_spec (10 * (60 * 1000000000))
              (2 ^ (attempts - 1) * (30 * 1000000000))); lia.
Qed.

(** From the thirtieth attempt on the 64-bit product wraps around. *)
Lemma calculateRetryDelay_wraps (conv_overflow : Z) :
  workerPool.calculateRetryDelay conv_overflow 30 = -2340616713709551616.
Proof. reflexivity. Qed.

(** C5 (the code at the failing input): without the guard for
    [attempts <= 0] that the SQS queue's [CalculateRetryDelay] has, the
    pool's [calculateRetryDelay] truncates 2^(-1) to zero and returns a
    zero delay for [attempts = 0], not the base delay of 30 seconds. *)
Theorem calculateRetryDelay_zero_attempts (conv_overflow : Z) :
  workerPool.calculateRetryDelay conv_overflow 0 = 0 /\
  workerPool.calculateRetryDelay conv_overflow 0 <> 30 * Second.
Proof. split; [reflexivity | discriminate]. Qed.

(** ** The jobs table *)

Lemma lookup_update_live (f : entity.Job -> entity.Job) (id id' : string)
    (db : gmap string entity.Job) :
  jobRepository.update_live f id db !! id' =
    if decide (id = id') then
      (fun j => match entity.DeletedAt j with None => f j | Some _ => j end)
        <$> db !! id'
    else db !! id'.
Proof.
  unfold jobRepository.update_live. rewrite lookup_alter.
  repeat case_decide; congruence.
Qed.

(** C3 (amended): [UpdateJobToCompleted] on a visible row sets the status
    to COMPLETED and [completed_at] to the given time, and leaves the
    error column as it was: the error is empty afterwards exactly when it
    was empty before. *)
Theorem UpdateJobToCompleted_keeps_error
    (db : gmap string entity.Job) (id : string) (completedAt now : Z)
    (j : entity.Job) :
  db !! id = Some j ->
  entity.DeletedAt j = None ->
  exists j',
    jobRepository.UpdateJobToCompleted id completedAt now db !! id = Some j' /\
    entity.Status j' = job.Completed /\
    entity.CompletedAt j' = Some completedAt /\
    entity.Error j' = entity.Error j.
Proof.
  intros Hj Hlive. unfold jobRepository.UpdateJobToCompleted.
  rewrite lookup_update_live, decide_True by done.
  rewrite Hj. simpl. rewrite Hlive. eexists. split; [reflexivity|]. done.
Qed.

(** The property C3 states for a store. *)
Definition completed_clean (db : gmap string entity.Job) : Prop :=
  forall id j,
    db !! id = Some j ->
    entity.Status j = job.Completed ->
    is_Some (entity.CompletedAt j) /\ entity.Error j = ""%string.

Lemma failed_then_completed_row :
  exists j,
    failed_then_completed !! "j1"%string = Some j /\
    entity.Status j = job.Completed /\
    entity.CompletedAt j = Some 20 /\
    entity.Error j = "boom"%string.
Proof. eexists. split; [vm_compute; reflexivity|]. done. Qed.

(** C3 (counterexample): a job created by [CreateJob], failed once with
    error "boom" and then completed is COMPLETED with a non-empty error. *)
Lemma completed_after_failure_not_clean :
  ~ completed_clean failed_then_completed.
Proof.
  intros H. destruct failed_then_completed_row as (j & Hj & Hs & _ & He).
  destruct (H _ _ Hj Hs) as [_ Hempty]. congruence.
Qed.

Lemma UpdateJobToCompleted_keeps_error_witness :
  exists j',
    jobRepository.UpdateJobToCompleted "j1" 20 20
      (jobRepository.UpdateJobToRetrying "j1" "boom" 10 sample_db)
      !! "j1"%string = Some j' /\
    entity.Status j' = job.Completed /\
    entity.CompletedAt j' = Some 20 /\
    entity.Error j' = "boom"%string.
Proof.
  refine (UpdateJobToCompleted_keeps_error
            (jobRepository.UpdateJobToRetrying "j1" "boom" 10 sample_db)
            "j1" 20 20
            {| entity.ID := "j1"; entity.Type_ := "kyc_verification";
               entity.Priority := 1; entity.Payload := Some ∅;
               entity.Attempts := 1; entity.MaxAttempts := 3;
               entity.CreatedAt := 5; entity.UpdatedAt := Some 10;
               entity.DeletedAt := None; entity.ScheduledAt := None;
               entity.StartedAt := None; entity.CompletedAt := None;
               entity.Status := job.Retrying; entity.Error := "boom" |}
            _ _).
  - vm_compute. reflexivity.
  - reflexivity.
Defined.

(** ** [GetPendingJobs] *)

#[local] Instance pending_order_total : Total jobRepository.pending_order.
Proof. intros a b. unfold jobRepository.pending_order. lia. Qed.

#[local] Instance pending_order_trans : Transitive jobRepository.pending_order.
Proof. intros a b c. unfold jobRepository.pending_order. lia. Qed.

Lemma elem_of_sql_limit {A} (n : Z) (l : list A) (x : A) :
  x ∈ jobRepository.sql_limit n l -> x ∈ l.
Proof.
  unfold jobRepository.sql_limit. destruct (0 <? n); [|done].
  intros Hx. rewrite <- (take_drop (Z.to_nat n) l).
  apply elem_of_app. by left.
Qed.

Lemma StronglySorted_sql_limit {A} (R : relation A) (n : Z) (l : list A) :
  StronglySorted R l -> StronglySorted R (jobRepository.sql_limit n l).
Proof.
  unfold jobRepository.sql_limit. destruct (0 <? n); [|done].
  intros Hs. rewrite <- (take_drop (Z.to_nat n) l) in Hs.
  by apply StronglySorted_app_1_l in Hs.
Qed.

Lemma elem_of_rows (db : gmap string entity.Job) (j : entity.Job) :
  j ∈ jobRepository.rows db <-> exists id, db !! id = Some j.
Proof.
  unfold jobRepository.rows. rewrite list_elem_of_fmap. split.
  - intros [[id j'] [-> Hin]]. exists id. by apply elem_of_map_to_list.
  - intros [id Hid]. exists (id, j). split; [done|].
    by apply elem_of_map_to_list.
Qed.

Lemma elem_of_GetPendingJobs (now limit : Z) (db : gmap string entity.Job)
    (j : entity.Job) :
  j ∈ jobRepository.GetPendingJobs now limit db ->
  j ∈ jobRepository.rows db /\ jobRepository.pending_visible now j = true.
Proof.
  unfold jobRepository.GetPendingJobs. intros Hj.
  apply elem_of_sql_limit in Hj.
  rewrite merge_sort_Permutation in Hj.
  apply list_elem_of_In, filter_In in Hj as [Hin Hv].
  split; [by apply list_elem_of_In | done].
Qed.

(** C8: [GetPendingJobs] returns only rows of the table that are PENDING,
    not tombstoned, and whose [scheduled_at] is absent or not after the
    query time; the list is ordered by priority descending, then by
    [created_at] ascending; hence a job scheduled for [t0 + D] with
    [D > 0] is in no result computed at a time before [t0 + D]. *)
Theorem GetPendingJobs_filter_and_order
    (now limit : Z) (db : gmap string entity.Job) :
  Forall (fun j =>
            j ∈ jobRepository.rows db /\
            entity.Status j = job.Pending /\
            entity.DeletedAt j = None /\
            match entity.ScheduledAt j with
            | None => True
            | Some t => t <= now
            end)
         (jobRepository.GetPendingJobs now limit db) /\
  StronglySorted jobRepository.pending_order
    (jobRepository.GetPendingJobs now limit db) /\
  (forall j t0 D,
     0 < D -> entity.ScheduledAt j = Some (t0 + D) -> now < t0 + D ->
     j ∉ jobRepository.GetPendingJobs now limit db).
Proof.
  assert (Hall : forall j, j ∈ jobRepository.GetPendingJobs now limit db ->
            j ∈ jobRepository.rows db /\
            entity.Status j = job.Pending /\
            entity.DeletedAt j = None /\
            match entity.ScheduledAt j with
            | None => True
            | Some t => t <= now
            end).
  { intros j Hj. apply elem_of_GetPendingJobs in Hj as [Hin Hv].
    split; [done|]. unfold jobRepository.pending_visible in Hv.
    apply andb_prop in Hv as [Hv Hsched]. apply andb_prop in Hv as [Hst Hdel].
    apply bool_decide_eq_true in Hst, Hdel. repeat split; [done..|].
    destruct (entity.ScheduledAt j); [|done].
    by apply bool_decide_eq_true in Hsched. }
  split; [|split].
  - apply Forall_forall. intros j Hj. by apply Hall.
  - apply StronglySorted_sql_limit, StronglySorted_merge_sort; apply _.
  - intros j t0 D HD Hs Hnow Hj. apply Hall in Hj as (_ & _ & _ & Hsched).
    rewrite Hs in Hsched. lia.
Qed.

Example GetPendingJobs_mixed :
  entity.ID <$> jobRepository.GetPendingJobs 50 10 mixed_db
    = ["d"; "b"; "c"; "a"]%string.
Proof. vm_compute. reflexivity. Qed.

Example GetPendingJobs_mixed_limit :
  entity.ID <$> jobRepository.GetPendingJobs 200 2 mixed_db
    = ["d"; "b"]%string.
Proof. vm_compute. reflexivity. Qed.

Lemma GetPendingJobs_filter_and_order_witness :
  scheduled_db !! "j1"%string = Some scheduled_job /\
  scheduled_job ∉ jobRepository.GetPendingJobs 50 10 scheduled_db.
Proof.
  split; [vm_compute; reflexivity|].
  apply (proj2 (proj2 (GetPendingJobs_filter_and_order 50 10 scheduled_db))
           scheduled_job 5 100); [lia | reflexivity | lia].
Defined.

(** ** [CreateJob] *)

Lemma list_at_LPush (key : string) (v : queue.wire) (r : queue.Redis) :
  queue.list_at key (queue.LPush key v r) = v :: queue.list_at key r.
Proof.
  unfold queue.LPush, queue.store_list, queue.list_at at 1. simpl.
  by rewrite lookup_insert_eq.
Qed.

Lemma list_at_ZAdd (key zkey member : string) (score : Z) (r : queue.Redis) :
  queue.list_at key (queue.ZAdd zkey member score r) = queue.list_at key r.
Proof. reflexivity. Qed.

Lemma list_at_Enqueue (now : Z) (j : entity.Job) (r : queue.Redis) :
  queue.list_at queue.QueueKey (queue.Enqueue None now j r).1 =
    queue.WJob j :: queue.list_at queue.QueueKey r.
Proof.
  unfold queue.Enqueue. simpl.
  destruct (entity.ScheduledAt j) as [t|]; [destruct (now <? t)|];
    rewrite ?list_at_ZAdd; apply list_at_LPush.
Qed.

(** What a successful [CreateJob] returns and leaves behind. *)
Lemma CreateJob_Ok_inv
    (env : jobManager.CreateEnv) (req : jobManager.CreateJobRequest)
    (db db' : gmap string entity.Job) (r r' : queue.Redis) (j : entity.Job) :
  jobManager.CreateJob env req db r = (db', r', Ok j) ->
  jobManager.req_Type req <> ""%string /\
  entity.Type_ j = jobManager.req_Type req /\
  entity.Priority j = jobManager.req_Priority req /\
  entity.Status j = job.Pending /\
  entity.Attempts j = 0 /\
  entity.ID j = jobManager.env_uuid env /\
  db !! entity.ID j = None /\
  entity.MaxAttempts j =
    (if 0 <? jobManager.req_MaxAttempts req
     then jobManager.req_MaxAttempts req else 3) /\
  entity.Payload j = Some (default ∅ (jobManager.req_Payload req)) /\
  db' = <[entity.ID j := j]> db /\
  queue.list_at queue.QueueKey r' =
    queue.WJob j :: queue.list_at queue.QueueKey r.
Proof.
  unfold jobManager.CreateJob.
  case_decide as Hty; [discriminate|].
  unfold jobRepository.Create.
  destruct (jobManager.env_db_fault env) as [e|]; [discriminate|]. simpl.
  destruct (db !! jobManager.env_uuid env) as [old|] eqn:Hfresh;
    [discriminate|].
  destruct (jobManager.env_queue_fault env) as [e|] eqn:Hq;
    [unfold queue.Enqueue; discriminate|].
  match goal with
  | |- context [queue.Enqueue None ?n ?je r] =>
      pose proof (list_at_Enqueue n je r) as Hhead;
      destruct (queue.Enqueue None n je r) as [r1 [e|]] eqn:Henq
  end; [discriminate|].
  intros [= <- <- <-]. simpl in *.
  repeat split; try done.
  - destruct (Z.leb_spec (jobManager.req_MaxAttempts req) 0),
      (Z.ltb_spec 0 (jobManager.req_MaxAttempts req)); (done || lia).
  - by destruct (jobManager.req_Payload req).
Qed.

(** C7: with an empty type [CreateJob] returns an error and leaves the
    table and the queue as they were.  A job that [CreateJob] returns is
    PENDING with zero attempts, carries the identifier generated for this
    call, which no row held before, has [max_attempts] equal to the
    requested value when that is positive and 3 otherwise, has the
    requested payload or the empty mapping, is stored in the table under
    its identifier and is the new head of the queue.  With a non-empty
    type, an unused identifier and no store fault a job is returned. *)
Theorem CreateJob_postconditions
    (env : jobManager.CreateEnv) (req : jobManager.CreateJobRequest)
    (db : gmap string entity.Job) (r : queue.Redis) :
  (jobManager.req_Type req = ""%string ->
     exists e, jobManager.CreateJob env req db r = (db, r, Err e)) /\
  (forall db' r' j,
     jobManager.CreateJob env req db r = (db', r', Ok j) ->
     jobManager.req_Type req <> ""%string /\
     entity.Type_ j = jobManager.req_Type req /\
     entity.Priority j = jobManager.req_Priority req /\
     entity.Status j = job.Pending /\
     entity.Attempts j = 0 /\
     entity.ID j = jobManager.env_uuid env /\
     db !! entity.ID j = None /\
     entity.MaxAttempts j =
       (if 0 <? jobManager.req_MaxAttempts req
        then jobManager.req_MaxAttempts req else 3) /\
     entity.Payload j = Some (default ∅ (jobManager.req_Payload req)) /\
     db' = <[entity.ID j := j]> db /\
     queue.list_at queue.QueueKey r' =
       queue.WJob j :: queue.list_at queue.QueueKey r) /\
  (jobManager.req_Type req <> ""%string ->
   db !! jobManager.env_uuid env = None ->
   jobManager.env_db_fault env = None ->
   jobManager.env_queue_fault env = None ->
   exists db' r' j, jobManager.CreateJob env req db r = (db', r', Ok j)).
Proof.
  split; [|split].
  - intros Hty. unfold jobManager.CreateJob. rewrite decide_True by done.
    by eexists.
  - intros db' r' j. apply CreateJob_Ok_inv.
  - intros Hty Hfresh Hdb Hq. unfold jobManager.CreateJob.
    rewrite decide_False by done.
    unfold jobRepository.Create, queue.Enqueue. rewrite Hdb, Hq. simpl.
    rewrite Hfresh. by eexists _, _, _.
Qed.

Lemma CreateJob_postconditions_witness :
  exists db' r' j,
    jobManager.CreateJob sample_env sample_req ∅ queue.empty = (db', r', Ok j).
Proof.
  apply (proj2 (proj2 (CreateJob_postconditions sample_env sample_req
                         ∅ queue.empty))).
  - discriminate.
  - reflexivity.
  - reflexivity.
  - reflexivity.
Defined.

Example CreateJob_empty_type :
  jobManager.CreateJob sample_env
    {| jobManager.req_Type := ""; jobManager.req_Priority := 2;
       jobManager.req_Payload := None; jobManager.req_MaxAttempts := 3;
       jobManager.req_ScheduledAt := None |} ∅ queue.empty
  = (∅, queue.empty, Err "job type is required"%string).
Proof. reflexivity. Qed.

(** ** [Dequeue] of the Redis queue *)

Lemma pop_last_snoc (front : list queue.wire) (x : queue.wire) :
  queue.pop_last (front ++ [x]) = Some (front, x).
Proof.
  induction front as [|y front IH]; [done|].
  simpl. rewrite IH. by destruct front.
Qed.

Lemma pop_last_nil_inv (l : list queue.wire) :
  queue.pop_last l = None -> l = [].
Proof.
  destruct l as [|x l]; [done|].
  destruct (exists_last (l := x :: l) ltac:(done)) as (front & y & ->).
  by rewrite pop_last_snoc.
Qed.

Lemma list_at_store_list (key key' : string) (l : list queue.wire)
    (r : queue.Redis) :
  queue.list_at key' (queue.store_list key l r) =
    if decide (key = key') then l else queue.list_at key' r.
Proof.
  unfold queue.list_at, queue.store_list. simpl. destruct l.
  - rewrite lookup_delete. by case_decide.
  - rewrite lookup_insert. by case_decide.
Qed.

(** C10: when the entry at the consuming end of the job queue is not the
    JSON of a job, [Dequeue] returns an error and no job, and the entry is
    gone from the queue (the rest of the queue and every other key are as
    before); on an empty queue [Dequeue] returns neither a job nor an
    error and changes nothing. *)
Theorem Dequeue_malformed_entry_is_lost
    (r : queue.Redis) (front : list queue.wire) (s : string) :
  (queue.list_at queue.QueueKey r = front ++ [queue.WText s] ->
   exists r' e,
     queue.Dequeue None queue.GetPriorityQueues r = (r', Err e) /\
     queue.list_at queue.QueueKey r' = front /\
     (forall key, key <> queue.QueueKey ->
                  queue.list_at key r' = queue.list_at key r) /\
     queue.zsets r' = queue.zsets r) /\
  (queue.list_at queue.QueueKey r = [] ->
   queue.Dequeue None queue.GetPriorityQueues r = (r, Ok None)).
Proof.
  split.
  - intros Hq. unfold queue.Dequeue, queue.GetPriorityQueues. simpl.
    rewrite Hq, pop_last_snoc. simpl. eexists _, _. split; [reflexivity|].
    split; [|split].
    + by rewrite list_at_store_list, decide_True.
    + intros key Hkey. by rewrite list_at_store_list, decide_False.
    + reflexivity.
  - intros Hq. unfold queue.Dequeue, queue.GetPriorityQueues. simpl.
    by rewrite Hq.
Qed.

Lemma Dequeue_malformed_entry_is_lost_witness :
  exists r' e,
    queue.Dequeue None queue.GetPriorityQueues poisoned_redis = (r', Err e) /\
    queue.list_at queue.QueueKey r' = [queue.WJob scheduled_job] /\
    (forall key, key <> queue.QueueKey ->
                 queue.list_at key r' = queue.list_at key poisoned_redis) /\
    queue.zsets r' = queue.zsets poisoned_redis.
Proof.
  apply (proj1 (Dequeue_malformed_entry_is_lost poisoned_redis
                  [queue.WJob scheduled_job] "{not a job")).
  vm_compute. reflexivity.
Defined.

Example Dequeue_empty :
  queue.Dequeue None queue.GetPriorityQueues queue.empty
    = (queue.empty, Ok None).
Proof. reflexivity. Qed.

Example Dequeue_then_next_job :
  let r1 := (queue.Dequeue None queue.GetPriorityQueues poisoned_redis).1 in
  (queue.Dequeue None queue.GetPriorityQueues r1).2 = Ok (Some scheduled_job).
Proof. vm_compute. reflexivity. Qed.

(** ** [GetStats] *)

Lemma map_contents_store (l l' : positive) (k : string) (v : Z)
    (h : gmap positive (gmap string Z)) :
  workerPool.map_contents l' (workerPool.map_store l k v h) =
    if decide (l = l') then <[k := v]> (workerPool.map_contents l h)
    else workerPool.map_contents l' h.
Proof.
  unfold workerPool.map_contents at 1, workerPool.map_store.
  rewrite lookup_insert. by case_decide.
Qed.

Lemma lookup_store_ne (l l' : positive) (k : string) (v : Z)
    (h : gmap positive (gmap string Z)) :
  l <> l' -> workerPool.map_store l k v h !! l' = h !! l'.
Proof. intros Hne. unfold workerPool.map_store. by rewrite lookup_insert_ne. Qed.

Lemma copy_entries_spec (src dst : positive)
    (h : gmap positive (gmap string Z)) :
  src <> dst ->
  workerPool.map_contents dst h = ∅ ->
  (forall l, l <> dst ->
     workerPool.copy_entries src dst h !! l = h !! l) /\
  workerPool.map_contents dst (workerPool.copy_entries src dst h) =
    workerPool.map_contents src h.
Proof.
  intros Hne Hempty. unfold workerPool.copy_entries.
  apply (map_fold_weak_ind
           (fun (acc : gmap positive (gmap string Z)) (m : gmap string Z) =>
              (forall l, l <> dst -> acc !! l = h !! l) /\
              (workerPool.map_contents dst acc = m))).
  - by split.
  - intros k v m acc Hk [Hframe Hdst]. split.
    + intros l Hl. rewrite lookup_store_ne by done. by apply Hframe.
    + rewrite map_contents_store, decide_True by done. by rewrite Hdst.
Qed.

(** C9: [GetStats] returns the pool as it was and changes no map that was
    allocated before the call; the snapshot carries the pool's counters
    and a map reference that is new (different from the pool's own) whose
    contents equal those of the pool's map; a write through the returned
    reference changes neither the pool nor the contents of the pool's
    map. *)
Theorem GetStats_is_a_detached_snapshot
    (p : workerPool.pool) (h : gmap positive (gmap string Z)) :
  workerPool.QueueDepths (workerPool.stats p) ∈ dom h ->
  exists snap h',
    workerPool.GetStats p h = (snap, p, h') /\
    (forall l, l ∈ dom h -> h' !! l = h !! l) /\
    (workerPool.QueueDepths snap ∉ dom h) /\
    workerPool.QueueDepths snap <> workerPool.QueueDepths (workerPool.stats p) /\
    workerPool.map_contents (workerPool.QueueDepths snap) h' =
      workerPool.map_contents (workerPool.QueueDepths (workerPool.stats p)) h /\
    workerPool.TotalWorkers snap = workerPool.TotalWorkers (workerPool.stats p) /\
    workerPool.ActiveWorkers snap = workerPool.ActiveWorkers (workerPool.stats p) /\
    workerPool.ProcessingJobs snap = workerPool.ProcessingJobs (workerPool.stats p) /\
    workerPool.TotalProcessed snap = workerPool.TotalProcessed (workerPool.stats p) /\
    workerPool.TotalFailed snap = workerPool.TotalFailed (workerPool.stats p) /\
    (forall k v,
       workerPool.map_contents (workerPool.QueueDepths (workerPool.stats p))
         (workerPool.map_store (workerPool.QueueDepths snap) k v h') =
       workerPool.map_contents (workerPool.QueueDepths (workerPool.stats p)) h).
Proof.
  intros Halloc. unfold workerPool.GetStats, workerPool.make_map.
  set (src := workerPool.QueueDepths (workerPool.stats p)) in *.
  set (l := fresh (dom h)).
  assert (Hfresh : l ∉ dom h) by apply is_fresh.
  assert (Hne : src <> l) by (intros ->; done).
  assert (Hempty : workerPool.map_contents l (<[l := ∅]> h) = ∅).
  { unfold workerPool.map_contents. by rewrite lookup_insert_eq. }
  destruct (copy_entries_spec src l (<[l := ∅]> h) Hne Hempty)
    as [Hframe Hcopy].
  assert (Hsrc : workerPool.map_contents src (<[l := ∅]> h) =
                 workerPool.map_contents src h).
  { unfold workerPool.map_contents. by rewrite lookup_insert_ne. }
  eexists _, _. split; [reflexivity|].
  cbn [workerPool.QueueDepths workerPool.TotalWorkers
       workerPool.ActiveWorkers workerPool.ProcessingJobs
       workerPool.TotalProcessed workerPool.TotalFailed].
  repeat split; try done.
  - intros l' Hl'. assert (l' <> l) by (intros ->; done).
    rewrite Hframe by done. by rewrite lookup_insert_ne.
  - congruence.
  - intros k v. rewrite map_contents_store, decide_False by done.
    unfold workerPool.map_contents at 1. rewrite Hframe by done.
    by rewrite lookup_insert_ne.
Qed.

Lemma GetStats_is_a_detached_snapshot_witness :
  exists snap h',
    workerPool.GetStats sample_pool sample_heap = (snap, sample_pool, h') /\
    (forall l, l ∈ dom sample_heap -> h' !! l = sample_heap !! l) /\
    (workerPool.QueueDepths snap ∉ dom sample_heap) /\
    workerPool.QueueDepths snap <> 1%positive /\
    workerPool.map_contents (workerPool.QueueDepths snap) h' =
      workerPool.map_contents 1%positive sample_heap /\
    workerPool.TotalWorkers snap = 2 /\
    workerPool.ActiveWorkers snap = 1 /\
    workerPool.ProcessingJobs snap = 1 /\
    workerPool.TotalProcessed snap = 4 /\
    workerPool.TotalFailed snap = 1 /\
    (forall k v,
       workerPool.map_contents 1%positive
         (workerPool.map_store (workerPool.QueueDepths snap) k v h') =
       workerPool.map_contents 1%positive sample_heap).
Proof.
  apply (GetStats_is_a_detached_snapshot sample_pool sample_heap).
  apply elem_of_dom. exists (<["{jobs}:queue"%string := 7]> ∅).
  vm_compute. reflexivity.
Defined.

Example GetStats_sample :
  let '(snap, _, h') := workerPool.GetStats sample_pool sample_heap in
  workerPool.map_contents (workerPool.QueueDepths snap) h'
    !! "{jobs}:queue"%string = Some 7 /\
  workerPool.map_contents 1%positive
    (workerPool.map_store (workerPool.QueueDepths snap) "{jobs}:queue" 0 h')
    !! "{jobs}:queue"%string = Some 7.
Proof. vm_compute. split; reflexivity. Qed.

(** ** The SQS listener *)

(** The job literal of [createJobFromMessage] leaves priority, attempts
    and max_attempts at their zero values. *)
Lemma createJobFromMessage_zero_fields
    (m : sqs.SqsMessage) (messageID queueURL : string) (j : entity.Job) :
  sqs.createJobFromMessage m messageID queueURL = Ok j ->
  entity.Type_ j = sqs.msg_Type m /\
  entity.Priority j = job.PriorityLow /\
  entity.Attempts j = 0 /\
  entity.MaxAttempts j = 0.
Proof.
  unfold sqs.createJobFromMessage.
  destruct (sqs.convertPayloadToMap _) as [[payloadMap|]|e];
    [|discriminate..].
  by intros [= <-].
Qed.

(** Hence the retry policy refuses every job the listener builds,
    whatever the error. *)
Lemma shouldRetry_event_job
    (m : sqs.SqsMessage) (messageID queueURL : string) (j : entity.Job)
    (err : error) :
  sqs.createJobFromMessage m messageID queueURL = Ok j ->
  sqs.shouldRetry j err = false.
Proof.
  intros Hj. apply createJobFromMessage_zero_fields in Hj as (_ & _ & Ha & Hm).
  unfold sqs.shouldRetry. by rewrite Ha, Hm.
Qed.

(** With attempts left the policy retries every error outside the closed
    set. *)
Example shouldRetry_with_attempts_left :
  sqs.shouldRetry (mk_pending "j" 1 0) "connection refused" = true /\
  sqs.shouldRetry (mk_pending "j" 1 0) "invalid_payload" = false.
Proof. split; reflexivity. Qed.

(** C4 (the code at the failing input): a well-formed "claim" message
    whose job cannot be created because the database insert fails with an
    arbitrary transport error [e] (an error that is none of the three
    non-retryable texts) is deleted from the broker all the same. *)
Theorem listener_deletes_message_on_retryable_failure (e : error) :
  (sample_queue_url, "rh-1"%string) ∈ sqs.w_broker sample_world /\
  exists w' err,
    sqs.processMessage (failing_env e) None sample_queue_url claim_message
      sample_world = (w', None, Some err) /\
    err = ("failed to create job via job manager: failed to create job: "
             +:+ e)%string /\
    err <> "invalid_payload"%string /\
    err <> "malformed_data"%string /\
    err <> "authentication_failed"%string /\
    (sample_queue_url, "rh-1"%string) ∉ sqs.w_broker w'.
Proof.
  split; [set_solver|].
  eexists _, _. split; [reflexivity|]. simpl.
  repeat split; discriminate.
Qed.

(** C6 (the code at the failing input): the "claim" message without a
    priority attribute is admitted as an "init_claim" job whose priority
    is LOW, and a message of an unmapped type keeps its type and is
    admitted with priority LOW as well. *)
Theorem listener_admits_with_low_priority :
  (exists w' j,
     sqs.processMessage sample_env None sample_queue_url claim_message
       sample_world = (w', Some j, None) /\
     sqs.w_jobs w' !! "j1"%string = Some j /\
     entity.Type_ j = "init_claim"%string /\
     entity.Priority j = job.PriorityLow /\
     entity.Priority j <> job.PriorityHigh) /\
  (exists w' j,
     sqs.processMessage sample_env None sample_queue_url unmapped_message
       sample_world = (w', Some j, None) /\
     sqs.w_jobs w' !! "j1"%string = Some j /\
     entity.Type_ j = "wallet.sync"%string /\
     entity.Priority j = job.PriorityLow /\
     entity.Priority j <> job.PriorityNormal).
Proof.
  split; eexists _, _; (split; [reflexivity|]);
    (split; [vm_compute; reflexivity|]); done.
Qed.

(** Whatever the message, a job the listener admits has the mapped type
    and priority LOW. *)
Lemma processMessage_admitted_job
    (env : jobManager.CreateEnv) (fault : option error) (queueURL : string)
    (message : sqs.Message) (w w' : sqs.World) (j : entity.Job)
    (err : option error) :
  sqs.processMessage env fault queueURL message w = (w', Some j, err) ->
  exists m,
    sqs.MessageBody message = sqs.BodyJSON m /\
    entity.Type_ j = sqs.convertEventTypeToJobType (sqs.msg_Type m) /\
    entity.Priority j = job.PriorityLow.
Proof.
  unfold sqs.processMessage, sqs.parseMessage.
  destruct (sqs.MessageBody message) as [m|s]; [|discriminate].
  destruct (sqs.validateMessage m); [discriminate|].
  destruct (sqs.createJobFromMessage m _ queueURL) as [ev|e] eqn:Hev;
    [|discriminate].
  apply createJobFromMessage_zero_fields in Hev as (Hty & Hp & _ & _).
  unfold sqs.handleJobAndCleanup, sqs.HandleMessage.
  destruct (jobManager.CreateJob env (sqs.bridgeRequest ev) _ _)
    as [[db r] [jb|e]] eqn:Hc.
  - apply CreateJob_Ok_inv in Hc as (_ & Hjt & Hjp & _).
    destruct (sqs.deleteMessage _ _ _ _) as [w2 [e|]]; intros [= <- <- <-];
      exists m; (split; [done|]); rewrite Hjt, Hjp; simpl; by rewrite Hty, Hp.
  - destruct (sqs.shouldRetry ev _); discriminate.
Qed.

(** ** Sessions *)

Section Sessions.
Import sessionRepository.
Local Open Scope nat_scope.

Variable hash : string -> string.



Lemma active_revoke (u : string) (now : Z) (s : Session) :
  authManager.active u (revoke now s) = false.
Proof.
  unfold authManager.active, revoke. simpl.
  by rewrite andb_false_r.
Qed.


Lemma RevokeByUserID_clears (u : string) (now : Z) (t : list Session) :
  authManager.active_count u (RevokeByUserID None u now t).1 = 0.
Proof.
  unfold RevokeByUserID, update_where, authManager.active_count. simpl.
  induction t as [|s t IH]; [done|]. simpl.
  destruct (bool_decide (UserID s = u) && live s) eqn:Hc.
  - by rewrite active_revoke.
  - unfold authManager.active. unfold live in Hc.
    destruct (bool_decide (UserID s = u)), (bool_decide (DeletedAt s = None));
      simpl in *; try done; by rewrite ?andb_false_r.
Qed.

Lemma Insert_table (env : InsertEnv) (session : Session) (t : list Session) :
  let t2 := (RevokeByUserID (ie_revoke_user_fault env) (UserID session)
               (ie_now env)
               (RevokeByToken (ie_revoke_token_fault env) (Token session)
                  (ie_now env) t).1).1 in
  (Insert env session t).1 = t2 \/
  exists row,
    Insert env session t = (t2 ++ [row], Ok row) /\
    UserID row = UserID session /\ Revoked row = Revoked session /\
    DeletedAt row = DeletedAt session.
Proof.
  unfold Insert. simpl.
  destruct (ie_insert_fault env); [by left|].
  destruct (existsb _ _); [by left|].
  right. by eexists.
Qed.





Lemma createSession_table (env : authManager.Env) (userID : string)
    (t : list Session) :
  (authManager.createSession hash env userID t).1 = t \/
  exists session,
    UserID session = userID /\ Revoked session = false /\
    DeletedAt session = None /\
    (authManager.createSession hash env userID t).1 =
      (Insert (authManager.a_insert env) session t).1.
Proof.
  unfold authManager.createSession.
  destruct (authManager.a_refresh env) as [[token handle]|]; [|by left].
  right.
  exists {| ID := ""; UserID := userID; Token := hash handle;
            Revoked := false;
            ExpiresAt :=
              Some (ie_now (authManager.a_insert env)
                    + authManager.a_refresh_expiration env)%Z;
            CreatedAt := 0%Z; DeletedAt := None |}.
  repeat split. by destruct (Insert _ _ t) as [? [|]].
Qed.






End Sessions.



Example sample_ops_result :
  map (fun s => (sessionRepository.ID s, sessionRepository.UserID s,
                 sessionRepository.Revoked s,
                 sessionRepository.DeletedAt s))
      (authManager.run sample_hash sample_ops [])
  = [ ("s1", "u1", true, Some 30); ("s2", "u2", true, Some 40);
      ("s3", "u1", false, None) ]%string.
Proof. vm_compute. reflexivity. Qed.

(** ** The worker service: invariant of the reachable states *)

Section Service.
Import entity.
Variable conv_overflow : Z.

Lemma held_split (busy : list (Job * workerService.pc)) (i : nat)
    (b : Job * workerService.pc) :
  busy !! i = Some b ->
  exists A B,
    omap held busy = A ++ omap held [b] ++ B /\
    (forall x, omap held (<[i := x]> busy) = A ++ omap held [x] ++ B) /\
    omap held (delete i busy) = A ++ B.
Proof.
  intros Hb. exists (omap held (take i busy)), (omap held (drop (S i) busy)).
  assert (Hlen : (i < length busy)%nat) by (by eapply lookup_lt_Some).
  split; [|split].
  - rewrite <- (take_drop_middle busy i b Hb) at 1.
    rewrite omap_app. simpl. by destruct (held b).
  - intros x. rewrite insert_take_drop by done.
    rewrite omap_app. simpl. by destruct (held x).
  - rewrite delete_take_drop. by rewrite omap_app.
Qed.

Lemma exec_update_live (fault : option error) (f : Job -> Job) (id : string)
    (db : gmap string Job) :
  workerService.exec fault (jobRepository.update_live f id) db =
    alter (fun j => match fault with
                    | Some _ => j
                    | None => match DeletedAt j with
                              | None => f j
                              | Some _ => j
                              end
                    end) id db.
Proof.
  destruct fault; simpl; [|done].
  symmetry. by apply alter_id.
Qed.

(** A copy leaves the pending list while its row is rewritten by [g]. *)
Lemma inv_remove (s s' : workerService.State) (A B : list Job) (c : Job)
    (g : Job -> Job) :
  Inv s ->
  pending_copies s = A ++ c :: B ->
  pending_copies s' = A ++ B ->
  workerService.jobs s' = alter g (ID c) (workerService.jobs s) ->
  workerService.scan s' = workerService.scan s ->
  (forall j, workerService.jobs s !! ID c = Some j ->
             row_ok (ID c) j -> Attempts j = 0 -> Error j = ""%string ->
             MaxAttempts j = MaxAttempts c ->
             row_ok (ID c) (g j)) ->
  Inv s'.
Proof.
  intros [Hrows Hnd Hcopies Hscan] Hp Hp' Hjobs Hscan' Hg.
  rewrite Hp in Hnd, Hcopies.
  rewrite fmap_app, fmap_cons in Hnd.
  apply NoDup_app in Hnd as (HA & HAc & HcB).
  apply NoDup_cons in HcB as [HcB HB].
  apply Forall_app in Hcopies as [HcA HcB'].
  apply Forall_cons in HcB' as [Hc HcB'].
  assert (Hother : forall c2, c2 ∈ A ++ B -> ID c2 <> ID c).
  { intros c2 Hin Heq. apply elem_of_app in Hin as [Hin|Hin].
    - apply (HAc (ID c2)); [by apply list_elem_of_fmap_2|].
      rewrite Heq. by left.
    - apply HcB. rewrite <- Heq. by apply list_elem_of_fmap_2. }
  split.
  - intros id j'. rewrite Hjobs, lookup_alter.
    case_decide as Hid; [|by apply Hrows].
    subst id. destruct (workerService.jobs s !! ID c) as [j|] eqn:Hj;
      [|discriminate].
    intros [= <-]. destruct Hc as (_ & j0 & Hj0 & Ha & Hm & He).
    rewrite Hj in Hj0. injection Hj0 as <-.
    apply Hg; try done. by apply Hrows.
  - rewrite Hp', fmap_app. apply NoDup_app. split; [done|]. split; [|done].
    intros x Hx HxB. apply (HAc x Hx). by right.
  - rewrite Hp'. apply Forall_forall. intros c2 Hin.
    assert (Hc2 : copy_ok (workerService.jobs s) c2).
    { apply elem_of_app in Hin as [Hin|Hin].
      - by eapply Forall_forall in HcA.
      - by eapply Forall_forall in HcB'. }
    destruct Hc2 as (Ha2 & j2 & Hj2 & Hrest). split; [done|].
    exists j2. split; [|done].
    rewrite Hjobs, lookup_alter_ne; [done|].
    intros Heq. by apply (Hother c2 Hin).
  - by rewrite Hscan'.
Qed.

(** The pending list is unchanged and one row is rewritten by a [g] that
    keeps the columns the copies are compared with. *)
Lemma inv_keep (s s' : workerService.State) (id : string) (g : Job -> Job) :
  Inv s ->
  pending_copies s' = pending_copies s ->
  workerService.jobs s' = alter g id (workerService.jobs s) ->
  workerService.scan s' = workerService.scan s ->
  (forall j, row_ok id j ->
             row_ok id (g j) /\ Attempts (g j) = Attempts j /\
             MaxAttempts (g j) = MaxAttempts j /\ Error (g j) = Error j) ->
  Inv s'.
Proof.
  intros [Hrows Hnd Hcopies Hscan] Hp Hjobs Hscan' Hg.
  split.
  - intros id' j'. rewrite Hjobs, lookup_alter.
    case_decide as Hid; [|by apply Hrows].
    subst id'. destruct (workerService.jobs s !! id) as [j|] eqn:Hj;
      [|discriminate].
    intros [= <-]. by apply Hg, Hrows.
  - by rewrite Hp.
  - rewrite Hp. eapply Forall_impl; [exact Hcopies|].
    intros c (Ha & j & Hj & Haj & Hm & He). split; [done|].
    rewrite Hjobs, lookup_alter. case_decide as Hid.
    + subst id. rewrite Hj. simpl. eexists. split; [reflexivity|].
      destruct (Hg j (Hrows _ _ Hj)) as (_ & -> & -> & ->). done.
    + by exists j.
  - by rewrite Hscan'.
Qed.

Lemma inv_same (s s' : workerService.State) :
  Inv s ->
  pending_copies s' = pending_copies s ->
  workerService.jobs s' = workerService.jobs s ->
  workerService.scan s' = workerService.scan s ->
  Inv s'.
Proof.
  intros [Hrows Hnd Hcopies Hscan] Hp Hjobs Hscan'.
  split; rewrite ?Hp, ?Hjobs, ?Hscan'; done.
Qed.


Lemma alter_self (id : string) (db : gmap string Job) :
  db = alter (fun j => j) id db.
Proof. symmetry. by apply alter_id. Qed.

Ltac solve_row_ok :=
  match goal with
  | H : row_ok _ _ |- _ =>
      destruct H as (? & ? & ? & ? & ?); unfold row_ok; simpl;
      repeat split; try (done || lia)
  end.

Lemma worker_step_inv (o : workerService.Oracle) (i : nat)
    (s : workerService.State) :
  Inv s -> Inv (workerService.worker_step conv_overflow o i s).
Proof.
  intros HI. unfold workerService.worker_step.
  destruct (workerService.busy s !! i) as [[c p]|] eqn:Hb; [|done].
  destruct (held_split _ _ _ Hb) as (A & B & HA & Hins & Hdel).
  set (Q := omap decode
              (queue.list_at queue.QueueKey (workerService.redis s))) in *.
  assert (Hpend : pending_copies s = Q ++ A ++ omap held [(c, p)] ++ B).
  { unfold pending_copies. by rewrite HA. }
  destruct p as [| | | | |jobErr|retryDelay].
  - (* MarkProcessing *)
    unfold queue.MarkProcessing. destruct (workerService.o_fault o).
    + eapply (inv_remove s _ (Q ++ A) B c (fun j => j)); try done.
      * by rewrite <- app_assoc.
      * unfold pending_copies. simpl. by rewrite Hdel, app_assoc.
      * apply alter_self.
    + eapply inv_same; try done.
      unfold pending_copies. simpl. by rewrite Hins, HA.
  - (* UpdateJobToProcessing *)
    unfold jobRepository.UpdateJobToProcessing.
    eapply inv_keep; [done| | |done|].
    + unfold pending_copies. simpl. by rewrite Hins, HA.
    + simpl. apply exec_update_live.
    + intros j Hj. destruct (workerService.o_fault o); [done|].
      destruct (DeletedAt j); [done|].
      split; [solve_row_ok|done].
  - (* Handle *)
    eapply inv_same; try done;
      [|by repeat (case_decide || case_match)
       |by repeat (case_decide || case_match)].
    unfold pending_copies.
    repeat (case_decide || case_match); simpl; by rewrite Hins, HA.
  - (* UpdateJobToCompleted *)
    unfold jobRepository.UpdateJobToCompleted.
    eapply (inv_remove s _ (Q ++ A) B c); [done| | | |done|].
    + by rewrite <- app_assoc.
    + unfold pending_copies. simpl. by rewrite Hins, app_assoc.
    + simpl. apply exec_update_live.
    + intros j Hj Hok Ha He Hm. destruct (workerService.o_fault o); [done|].
      destruct (DeletedAt j); [done|]. solve_row_ok.
  - (* MarkCompleted *)
    eapply inv_same; try done.
    unfold pending_copies. simpl.
    rewrite Hdel, HA. simpl.
    unfold queue.MarkCompleted. by destruct (workerService.o_fault o).
  - (* handleJobFailure *)
    assert (Hc : copy_ok (workerService.jobs s) c).
    { destruct HI as [_ _ Hcs _]. rewrite Hpend in Hcs.
      eapply Forall_forall in Hcs; [exact Hcs|].
      simpl. set_solver. }
    destruct Hc as (Hca & _). simpl. rewrite Hca.
    change (int64_wrap (0 + 1)) with 1.
    destruct (Z.leb_spec (MaxAttempts c) 1) as [Hmax|Hmax].
    + unfold jobRepository.UpdateJobToFailed.
      eapply (inv_remove s _ (Q ++ A) B c); [done| | | |done|].
      * by rewrite <- app_assoc.
      * unfold pending_copies. simpl. by rewrite Hins, app_assoc.
      * simpl. apply exec_update_live.
      * intros j Hj Hok Ha He Hm. destruct (workerService.o_fault o); [done|].
        destruct (DeletedAt j); [done|]. solve_row_ok.
    + unfold jobRepository.UpdateJobToRetrying.
      eapply (inv_remove s _ (Q ++ A) B c); [done| | | |done|].
      * by rewrite <- app_assoc.
      * unfold pending_copies. simpl. by rewrite Hins, app_assoc.
      * simpl. apply exec_update_live.
      * intros j Hj Hok Ha He Hm. destruct (workerService.o_fault o); [done|].
        destruct (DeletedAt j); [done|]. solve_row_ok.
  - (* MarkFailed *)
    eapply inv_same; try done.
    unfold pending_copies. simpl.
    rewrite Hdel, HA. simpl.
    unfold queue.MarkFailed. destruct (workerService.o_fault o); [done|].
    simpl. by destruct (0 <? retryDelay).
Qed.

Lemma pop_last_Some_inv (l rest : list queue.wire) (v : queue.wire) :
  queue.pop_last l = Some (rest, v) -> l = rest ++ [v].
Proof.
  destruct l as [|x l]; [done|].
  destruct (exists_last (l := x :: l) ltac:(done)) as (front & y & ->).
  rewrite pop_last_snoc. by intros [= <- <-].
Qed.

Lemma dequeue_step_inv (o : workerService.Oracle) (s : workerService.State) :
  Inv s -> Inv (workerService.dequeue_step o s).
Proof.
  intros HI. unfold workerService.dequeue_step, queue.Dequeue.
  destruct (workerService.o_fault o); [by eapply inv_same|].
  unfold queue.GetPriorityQueues. simpl.
  destruct (queue.pop_last _) as [[rest v]|] eqn:Hpop;
    [|by eapply inv_same].
  apply pop_last_Some_inv in Hpop.
  destruct v as [j|txt]; simpl.
  - eapply inv_same; try done.
    unfold pending_copies. simpl.
    rewrite list_at_store_list, decide_True by done.
    rewrite Hpop, omap_app. simpl. by rewrite <- app_assoc.
  - eapply inv_same; try done.
    unfold pending_copies. simpl.
    rewrite list_at_store_list, decide_True by done.
    rewrite Hpop, omap_app. simpl. by rewrite app_nil_r.
Qed.

Lemma CreateJob_cases (env : jobManager.CreateEnv)
    (req : jobManager.CreateJobRequest) (db : gmap string Job)
    (r : queue.Redis) :
  ((jobManager.CreateJob env req db r).1.1 = db /\
   (jobManager.CreateJob env req db r).1.2 = r) \/
  exists j,
    db !! ID j = None /\ Attempts j = 0 /\ 1 <= MaxAttempts j /\
    Status j = job.Pending /\ Error j = ""%string /\
    (jobManager.CreateJob env req db r).1.1 = <[ID j := j]> db /\
    ((jobManager.CreateJob env req db r).1.2 = r \/
     queue.list_at queue.QueueKey (jobManager.CreateJob env req db r).1.2 =
       queue.WJob j :: queue.list_at queue.QueueKey r).
Proof.
  unfold jobManager.CreateJob. case_decide; [by left|].
  unfold jobRepository.Create.
  destruct (jobManager.env_db_fault env); [by left|]. simpl.
  destruct (db !! jobManager.env_uuid env) eqn:Hfresh; [by left|].
  match goal with
  | |- context [queue.Enqueue _ _ ?je r] => set (je0 := je)
  end.
  right. exists je0. split; [exact Hfresh|].
  split; [done|]. split.
  { simpl. destruct (Z.leb_spec (jobManager.req_MaxAttempts req) 0); lia. }
  split; [done|]. split; [done|].
  destruct (jobManager.env_queue_fault env) as [e|].
  - simpl. split; [done|]. by left.
  - pose proof (list_at_Enqueue (jobManager.env_now env) je0 r) as Hhead.
    destruct (queue.Enqueue None _ je0 r) as [r1 [e|]] eqn:Henq;
      simpl in *; (split; [done|]); by right.
Qed.

Lemma create_step_inv (env : jobManager.CreateEnv)
    (req : jobManager.CreateJobRequest) (s : workerService.State) :
  Inv s -> Inv (workerService.create_step env req s).
Proof.
  intros HI. unfold workerService.create_step.
  destruct (CreateJob_cases env req (workerService.jobs s)
              (workerService.redis s))
    as [[Hdb Hr] | (j & Hfresh & Ha & Hm & Hst & He & Hdb & Hr)];
    destruct (jobManager.CreateJob _ _ _ _) as [[db r] res]; simpl in *;
    subst db.
  - subst r. by eapply inv_same.
  - destruct HI as [Hrows Hnd Hcopies Hscan].
    assert (Hkeep : forall c, copy_ok (workerService.jobs s) c ->
              copy_ok (<[ID j := j]> (workerService.jobs s)) c /\
              ID c <> ID j).
    { intros c (Hca & j0 & Hj0 & Hrest).
      assert (ID c <> ID j) by congruence.
      split; [|done]. split; [done|]. exists j0.
      by rewrite lookup_insert_ne. }
    assert (Hrows' : forall id j',
              <[ID j := j]> (workerService.jobs s) !! id = Some j' ->
              row_ok id j').
    { intros id j'. rewrite lookup_insert. case_decide as Hid.
      - intros [= <-]. subst id. unfold row_ok. rewrite Ha, Hst.
        repeat split; (done || lia).
      - apply Hrows. }
    destruct Hr as [-> | Hr].
    + split; simpl; try done.
      eapply Forall_impl; [exact Hcopies|]. intros c Hc.
      by apply Hkeep.
    + split; simpl; try done.
      * unfold pending_copies in *. simpl. rewrite Hr. simpl.
        apply NoDup_cons. split; [|done].
        intros Hin. apply list_elem_of_fmap in Hin as (c & Hid & Hin).
        eapply Forall_forall in Hcopies; [|exact Hin].
        apply Hkeep in Hcopies as [_ Hne]. congruence.
      * unfold pending_copies in *. simpl. rewrite Hr. simpl.
        apply Forall_cons. split.
        -- split; [done|]. exists j. by rewrite lookup_insert_eq.
        -- eapply Forall_impl; [exact Hcopies|]. intros c Hc.
           by apply Hkeep.
Qed.

Lemma filter_all_false {A} (p : A -> bool) (l : list A) :
  (forall x, x ∈ l -> p x = false) -> List.filter p l = [].
Proof.
  induction l as [|x l IH]; [done|]. intros Hall. simpl.
  rewrite (Hall x) by set_solver. apply IH. intros y Hy. apply Hall.
  set_solver.
Qed.

(** No row of an invariant table is retryable: FAILED is only written
    once the attempts are used up. *)
Lemma GetRetryableJobs_nil (beforeTime limit : Z) (db : gmap string Job) :
  (forall id j, db !! id = Some j -> row_ok id j) ->
  jobRepository.GetRetryableJobs beforeTime limit db = [].
Proof.
  intros Hrows. unfold jobRepository.GetRetryableJobs.
  rewrite filter_all_false.
  - change (merge_sort jobRepository.retry_order []) with (@nil Job).
    unfold jobRepository.sql_limit.
    destruct (0 <? limit); [apply take_nil | done].
  - intros j Hj. apply elem_of_rows in Hj as [id Hid].
    destruct (Hrows _ _ Hid) as (_ & _ & _ & Hf & _).
    unfold jobRepository.retryable.
    destruct (decide (Status j = job.Failed)) as [Hs|Hs].
    + rewrite (bool_decide_eq_false_2 (Attempts j < MaxAttempts j));
        [by rewrite andb_false_r | specialize (Hf Hs); lia].
    + by rewrite (bool_decide_eq_false_2 _ Hs).
Qed.

Lemma tick_step_inv (o : workerService.Oracle) (s : workerService.State) :
  Inv s -> Inv (workerService.tick_step o s).
Proof.
  intros HI. unfold workerService.tick_step.
  destruct (workerService.o_fault o); [done|].
  rewrite GetRetryableJobs_nil by apply HI.
  eapply inv_same; try done. simpl. by rewrite app_nil_r.
Qed.

Lemma scan_step_inv (o : workerService.Oracle) (s : workerService.State) :
  Inv s -> Inv (workerService.scan_step o s).
Proof.
  intros HI. unfold workerService.scan_step. by rewrite (inv_scan _ HI).
Qed.

Lemma step_inv (ev : workerService.Event) (s : workerService.State) :
  Inv s -> Inv (workerService.step conv_overflow ev s).
Proof.
  destruct ev; simpl.
  - apply create_step_inv.
  - apply dequeue_step_inv.
  - apply worker_step_inv.
  - apply tick_step_inv.
  - apply scan_step_inv.
Qed.

Lemma run_inv (evs : list workerService.Event) (s : workerService.State) :
  Inv s -> Inv (workerService.run conv_overflow evs s).
Proof.
  revert s. unfold workerService.run.
  induction evs as [|ev evs IH]; intros s HI; [done|].
  simpl. by apply IH, step_inv.
Qed.

Lemma init_inv (registry : gset string) : Inv (workerService.init registry).
Proof.
  split; try done; constructor.
Qed.

Lemma attempts_grow_refl (db : gmap string Job) : attempts_grow db db.
Proof. intros id j Hj. by exists j. Qed.

Lemma attempts_grow_trans (db1 db2 db3 : gmap string Job) :
  attempts_grow db1 db2 -> attempts_grow db2 db3 -> attempts_grow db1 db3.
Proof.
  intros H12 H23 id j Hj.
  destruct (H12 _ _ Hj) as (j2 & Hj2 & Ha2 & Hm2).
  destruct (H23 _ _ Hj2) as (j3 & Hj3 & Ha3 & Hm3).
  exists j3. split; [done|]. split; [lia | congruence].
Qed.

Lemma attempts_grow_alter (g : Job -> Job) (id : string)
    (db : gmap string Job) :
  (forall j, Attempts j <= Attempts (g j) /\ MaxAttempts (g j) = MaxAttempts j) ->
  attempts_grow db (alter g id db).
Proof.
  intros Hg id' j Hj. rewrite lookup_alter. case_decide.
  - subst. rewrite Hj. simpl. exists (g j). split; [done|]. apply Hg.
  - by exists j.
Qed.

Lemma attempts_grow_insert (j0 : Job) (db : gmap string Job) :
  db !! ID j0 = None -> attempts_grow db (<[ID j0 := j0]> db).
Proof.
  intros Hfresh id j Hj. exists j.
  rewrite lookup_insert_ne by congruence. done.
Qed.

Ltac solve_grow :=
  rewrite ?exec_update_live; apply attempts_grow_alter; intros ?;
  repeat case_match; simpl; split; (done || lia).

Lemma worker_step_grow (o : workerService.Oracle) (i : nat)
    (s : workerService.State) :
  attempts_grow (workerService.jobs s)
    (workerService.jobs (workerService.worker_step conv_overflow o i s)).
Proof.
  unfold workerService.worker_step.
  destruct (workerService.busy s !! i) as [[c p]|];
    [|apply attempts_grow_refl].
  destruct p; simpl.
  - unfold queue.MarkProcessing.
    destruct (workerService.o_fault o); apply attempts_grow_refl.
  - unfold jobRepository.UpdateJobToProcessing. solve_grow.
  - repeat (case_decide || case_match); apply attempts_grow_refl.
  - unfold jobRepository.UpdateJobToCompleted. solve_grow.
  - apply attempts_grow_refl.
  - destruct (_ <=? _); simpl.
    + unfold jobRepository.UpdateJobToFailed. solve_grow.
    + unfold jobRepository.UpdateJobToRetrying. solve_grow.
  - apply attempts_grow_refl.
Qed.

Lemma step_grow (ev : workerService.Event) (s : workerService.State) :
  attempts_grow (workerService.jobs s)
    (workerService.jobs (workerService.step conv_overflow ev s)).
Proof.
  destruct ev as [env req|o|i o|o|o]; simpl.
  - unfold workerService.create_step.
    destruct (CreateJob_cases env req (workerService.jobs s)
                (workerService.redis s))
      as [[Hdb _] | (j & Hfresh & _ & _ & _ & _ & Hdb & _)];
      destruct (jobManager.CreateJob _ _ _ _) as [[db r] res]; simpl in *;
      subst db.
    + apply attempts_grow_refl.
    + by apply attempts_grow_insert.
  - unfold workerService.dequeue_step.
    destruct (queue.Dequeue _ _ _) as [r [[j|]|e]]; apply attempts_grow_refl.
  - apply worker_step_grow.
  - unfold workerService.tick_step.
    destruct (workerService.o_fault o); apply attempts_grow_refl.
  - unfold workerService.scan_step.
    destruct (workerService.scan s) as [|[j []] rest];
      [apply attempts_grow_refl| |apply attempts_grow_refl].
    destruct (workerService.o_fault o); [apply attempts_grow_refl|].
    simpl. unfold jobRepository.UpdateStatus, jobRepository.update_live.
    apply attempts_grow_alter. intros j0. by destruct (DeletedAt j0).
Qed.

Lemma run_grow (evs : list workerService.Event) (s : workerService.State) :
  attempts_grow (workerService.jobs s)
    (workerService.jobs (workerService.run conv_overflow evs s)).
Proof.
  revert s. unfold workerService.run.
  induction evs as [|ev evs IH]; intros s; [apply attempts_grow_refl|].
  simpl. eapply attempts_grow_trans; [apply step_grow | apply IH].
Qed.

Lemma run_app (evs evs' : list workerService.Event)
    (s : workerService.State) :
  workerService.run conv_overflow (evs ++ evs') s =
    workerService.run conv_overflow evs'
      (workerService.run conv_overflow evs s).
Proof. unfold workerService.run. apply foldl_app. Qed.

End Service.

(** C2: in every state the worker service reaches from the empty table and
    the empty queue, under any interleaving of job creation, the
    statements of any number of workers and the retry scheduler, with any
    handler outcomes and any transport faults, every stored job has
    [0 <= attempts <= max_attempts]; and along any continuation of the
    schedule the stored attempts of a job never decrease (and its
    max_attempts stay the same). *)
Theorem attempts_monotone_and_bounded
    (conv_overflow : Z) (registry : gset string)
    (evs evs' : list workerService.Event) :
  let s := workerService.run conv_overflow evs (workerService.init registry) in
  let s' := workerService.run conv_overflow (evs ++ evs')
              (workerService.init registry) in
  (forall id j,
     workerService.jobs s !! id = Some j ->
     0 <= entity.Attempts j <= entity.MaxAttempts j) /\
  attempts_grow (workerService.jobs s) (workerService.jobs s').
Proof.
  simpl. split.
  - intros id j Hj.
    pose proof (run_inv conv_overflow evs _ (init_inv registry)) as HI.
    destruct (inv_rows _ HI _ _ Hj) as (_ & Hm & Ha & _). lia.
  - rewrite run_app. apply run_grow.
Qed.

(** In the states the service reaches, a COMPLETED job has [completed_at]
    set and an empty error: a job that failed is never handed to a worker
    again. *)
Lemma reachable_completed_clean
    (conv_overflow : Z) (registry : gset string)
    (evs : list workerService.Event) :
  completed_clean
    (workerService.jobs
       (workerService.run conv_overflow evs (workerService.init registry))).
Proof.
  intros id j Hj Hs.
  pose proof (run_inv conv_overflow evs _ (init_inv registry)) as HI.
  destruct (inv_rows _ HI _ _ Hj) as (_ & _ & _ & _ & Hc). by apply Hc.
Qed.

Lemma attempts_monotone_and_bounded_witness :
  exists j,
    workerService.jobs
      (workerService.run 0 failing_schedule (workerService.init sample_registry))
      !! "j1"%string = Some j /\
    entity.Status j = job.Failed /\
    entity.Attempts j = 1 /\
    0 <= entity.Attempts j <= entity.MaxAttempts j /\
    attempts_grow
      (workerService.jobs
         (workerService.run 0 failing_schedule
            (workerService.init sample_registry)))
      (workerService.jobs
         (workerService.run 0 (failing_schedule ++ later_scan)
            (workerService.init sample_registry))).
Proof.
  pose proof (attempts_monotone_and_bounded 0 sample_registry
                failing_schedule later_scan) as H.
  cbv zeta in H. destruct H as [Hbound Hgrow].
  destruct (workerService.jobs
              (workerService.run 0 failing_schedule
                 (workerService.init sample_registry)) !! "j1"%string)
    as [j|] eqn:Hj.
  - exists j. split; [reflexivity|].
    assert (Hst : entity.Status j = job.Failed /\ entity.Attempts j = 1).
    { revert Hj. vm_compute. intros [= <-]. split; reflexivity. }
    destruct Hst as [Hs Ha].
    split; [exact Hs|]. split; [exact Ha|].
    split; [exact (Hbound _ _ Hj) | exact Hgrow].
  - exfalso. revert Hj. vm_compute. discriminate.
Defined.

(** A job with attempts left is parked as RETRYING after its first
    failure; the scheduler, which looks for FAILED rows only, does not
    put it back, and the next dequeue finds the queue empty. *)
Example retrying_job_is_not_readmitted :
  (exists j,
     workerService.jobs
       (workerService.run 0 (retrying_schedule ++ later_scan)
          (workerService.init sample_registry)) !! "j1"%string = Some j /\
     entity.Status j = job.Retrying /\ entity.Attempts j = 1 /\
     entity.MaxAttempts j = 3 /\ entity.Error j = "boom"%string) /\
  queue.list_at queue.QueueKey
    (workerService.redis
       (workerService.run 0 (retrying_schedule ++ later_scan)
          (workerService.init sample_registry))) = [] /\
  workerService.busy
    (workerService.run 0 (retrying_schedule ++ later_scan)
       (workerService.init sample_registry)) = [].
Proof.
  split; [|split].
  - eexists. split; [vm_compute; reflexivity|]. repeat split.
  - vm_compute. reflexivity.
  - vm_compute. reflexivity.
Qed.

(** ** Further runs of the code *)

(** The premise of the session invariant is needed: when the statement
    that revokes the user's rows fails and the insert goes through, two
    active rows remain. *)
Example two_active_rows_when_revocation_faults :
  authManager.active_count "u1"
    (authManager.run sample_hash
       [ authManager.OpLogin (auth_env 10 "s1" "u1" "R1" "H1");
         authManager.OpLogin faulty_revocation_env ] []) = 2%nat.
Proof. vm_compute. reflexivity. Qed.

(** The sibling backoff of the SQS queue returns the base delay for a
    zero attempt, and the event table of package job gives claims HIGH
    and everything else NORMAL. *)
Example CalculateRetryDelay_zero_attempt :
  sqs.CalculateRetryDelay (workerPool.pow2_duration 0)
    (30 * Second) (15 * Minute) 0 = 30 * Second.
Proof. reflexivity. Qed.

Example ToPriority_table :
  job.ToPriority job.ClaimInitiated = job.PriorityHigh /\
  job.ToPriority "anything.else" = job.PriorityNormal.
Proof. split; reflexivity. Qed.

(** The first steps of the backoff law. *)
Example calculateRetryDelay_first_steps :
  map (workerPool.calculateRetryDelay 0) [1; 2; 3; 4; 5; 6]
  = [30 * Second; 60 * Second; 120 * Second; 240 * Second; 480 * Second;
     10 * Minute].
Proof. reflexivity. Qed.

(** ** More on sessions *)

Section SessionsMore.
Import sessionRepository.

Variable hash : string -> string.

Lemma update_where_revoke_tombstoned (fault : option error)
    (cond : Session -> bool) (now : Z) (t : list Session) :
  revoked_are_tombstoned t ->
  revoked_are_tombstoned (update_where fault cond (revoke now) t).1.
Proof.
  unfold revoked_are_tombstoned, update_where. intros Ht.
  destruct fault; [done|]. simpl. apply Forall_fmap.
  eapply Forall_impl; [exact Ht|]. intros s Hs. simpl.
  destruct (cond s && live s); [done | exact Hs].
Qed.

Lemma Insert_tombstoned (env : InsertEnv) (session : Session)
    (t : list Session) :
  Revoked session = false ->
  revoked_are_tombstoned t ->
  revoked_are_tombstoned (Insert env session t).1.
Proof.
  intros Hr Ht.
  assert (Ht2 : revoked_are_tombstoned
            (RevokeByUserID (ie_revoke_user_fault env) (UserID session)
               (ie_now env)
               (RevokeByToken (ie_revoke_token_fault env) (Token session)
                  (ie_now env) t).1).1)
    by (by do 2 apply update_where_revoke_tombstoned).
  destruct (Insert_table env session t) as [-> | (row & -> & _ & Hrow & _)];
    [done|].
  simpl. apply Forall_app. split; [done|].
  apply Forall_singleton. congruence.
Qed.

Lemma apply_tombstoned (op : authManager.Op) (t : list Session) :
  revoked_are_tombstoned t ->
  revoked_are_tombstoned (authManager.apply hash op t).
Proof.
  intros Ht.
  assert (Hcs : forall env u, revoked_are_tombstoned
                  (authManager.createSession hash env u t).1).
  { intros env u.
    destruct (createSession_table hash env u t)
      as [-> | (ses & _ & Hr & _ & ->)]; [done|].
    by apply Insert_tombstoned. }
  destruct op as [env|env claims|env claims]; simpl.
  - unfold authManager.Login.
    destruct (authManager.a_user env); [|done].
    destruct (authManager.a_access env); [|done]. apply Hcs.
  - unfold authManager.RefreshToken.
    destruct claims as [raw|]; [|done]. case_decide; [done|].
    destruct (authManager.validateSession _ _ _) as [session|]; [|done].
    destruct (authManager.a_user env); [|done].
    destruct (authManager.a_access env); [|done].
    specialize (Hcs env (UserID session)).
    destruct (authManager.createSession _ _ _ _) as [t' [tok|e]];
      simpl in *; [|done].
    by apply update_where_revoke_tombstoned.
  - unfold authManager.Logout.
    destruct claims as [raw|]; [|done]. case_decide; [done|].
    pose proof (update_where_revoke_tombstoned (authManager.a_revoke_fault env)
                  (fun s => bool_decide (Token s = hash raw))
                  (ie_now (authManager.a_insert env)) t Ht) as Hr.
    unfold RevokeByToken. by destruct (update_where _ _ _ _) as [t' [e|]].
Qed.

Lemma run_tombstoned (ops : list authManager.Op) (t : list Session) :
  revoked_are_tombstoned t ->
  revoked_are_tombstoned (authManager.run hash ops t).
Proof.
  revert t. unfold authManager.run.
  induction ops as [|op ops IH]; intros t Ht; [done|].
  simpl. by apply IH, apply_tombstoned.
Qed.

Lemma FindByToken_Ok_inv (fault : option error) (token : string)
    (t : list Session) (s : Session) :
  FindByToken fault token t = Ok s ->
  s ∈ t /\ Token s = token /\ DeletedAt s = None.
Proof.
  unfold FindByToken. destruct fault; [discriminate|].
  destruct (List.filter _ t) as [|s0 rest] eqn:Hf; [discriminate|].
  intros [= <-].
  assert (Hin : In s0 (List.filter
                         (fun s => bool_decide (Token s = token) && live s) t))
    by (rewrite Hf; by left).
  apply filter_In in Hin as [Hin Hc].
  apply andb_prop in Hc as [Htok Hlive].
  apply bool_decide_eq_true in Htok. apply bool_decide_eq_true in Hlive.
  split; [by apply list_elem_of_In | done].
Qed.

End SessionsMore.

(** X1: the manager never answers "refresh token has been revoked".
    Every revocation also tombstones the row and [FindByToken] skips
    tombstoned rows, so in any table produced by logins, refreshes and
    logouts from a table whose revoked rows are tombstoned, a revoked
    token is reported as unknown, never as revoked. *)
Theorem validateSession_never_reports_revoked
    (hash : string -> string) (ops : list authManager.Op)
    (t : list sessionRepository.Session) (env : authManager.Env)
    (token : string) :
  revoked_are_tombstoned t ->
  authManager.validateSession env token (authManager.run hash ops t)
    <> Err authManager.ErrRefreshTokenRevoked.
Proof.
  intros Ht. apply (run_tombstoned hash ops) in Ht.
  unfold authManager.validateSession.
  destruct (sessionRepository.FindByToken _ _ _) as [s|e] eqn:Hf.
  - apply FindByToken_Ok_inv in Hf as (Hin & _ & Hlive).
    unfold revoked_are_tombstoned in Ht.
    eapply Forall_forall in Ht; [|exact Hin].
    destruct (sessionRepository.Revoked s); [by destruct Ht|].
    destruct (sessionRepository.ExpiresAt s) as [exp|]; [|discriminate].
    destruct (exp <? _); discriminate.
  - case_decide; discriminate.
Qed.

Section SessionsTokens.
Import sessionRepository.

Variable hash : string -> string.

Lemma update_where_tokens (fault : option error) (cond : Session -> bool)
    (now : Z) (t : list Session) :
  Token <$> (update_where fault cond (revoke now) t).1 = Token <$> t.
Proof.
  unfold update_where. destruct fault; [done|]. simpl.
  induction t as [|s t IH]; [done|]. simpl.
  f_equal; [by destruct (cond s && live s) | exact IH].
Qed.


Lemma existsb_token_false (token id : string) (t : list Session) :
  existsb (fun s => bool_decide (Token s = token) || bool_decide (ID s = id)) t
    = false ->
  token ∉ Token <$> t.
Proof.
  intros Hex Hin. apply list_elem_of_fmap in Hin as (s & Htok & Hin).
  assert (Ht : existsb (fun s => bool_decide (Token s = token)
                                 || bool_decide (ID s = id)) t = true).
  { apply existsb_exists. exists s. split; [by apply list_elem_of_In|].
    by rewrite bool_decide_eq_true_2. }
  congruence.
Qed.

(** What a successful [Insert] did: the row is appended to the table left
    by the two revocations, and no earlier row holds its token. *)
Lemma Insert_Ok_fresh_token (env : InsertEnv) (session : Session)
    (t t' : list Session) (row : Session) :
  Insert env session t = (t', Ok row) ->
  exists t2,
    t' = t2 ++ [row] /\
    Token <$> t2 = Token <$> t /\
    Token row = Token session /\
    UserID row = UserID session /\
    DeletedAt row = DeletedAt session /\
    Token session ∉ Token <$> t.
Proof.
  unfold Insert.
  destruct (ie_insert_fault env); [discriminate|].
  destruct (existsb _ _) eqn:Hex; [discriminate|].
  intros [= <- <-]. eexists. split; [reflexivity|].
  assert (Htok : Token <$>
            (RevokeByUserID (ie_revoke_user_fault env) (UserID session)
               (ie_now env)
               (RevokeByToken (ie_revoke_token_fault env) (Token session)
                  (ie_now env) t).1).1 = Token <$> t).
  { unfold RevokeByUserID, RevokeByToken. by rewrite !update_where_tokens. }
  split; [done|]. repeat split.
  rewrite <- Htok. by eapply existsb_token_false.
Qed.




End SessionsTokens.




(** X5: [Insert] is not atomic.  When the insert statement fails (a
    transport fault or a token that is already taken) the revocations
    before it have been applied all the same: the user is left without
    any active session. *)
Theorem Insert_failure_still_revokes
    (env : sessionRepository.InsertEnv) (session : sessionRepository.Session)
    (t t' : list sessionRepository.Session) (e : error) :
  sessionRepository.Insert env session t = (t', Err e) ->
  sessionRepository.ie_revoke_user_fault env = None ->
  authManager.active_count (sessionRepository.UserID session) t' = 0%nat.
Proof.
  unfold sessionRepository.Insert. intros Hins Hrun. rewrite Hrun in Hins.
  destruct (sessionRepository.ie_insert_fault env).
  - injection Hins as <- _. apply RevokeByUserID_clears.
  - destruct (existsb _ _); [|discriminate].
    injection Hins as <- _. apply RevokeByUserID_clears.
Qed.

(** X6: the tokens of the table stay pairwise distinct under any sequence
    of logins, refreshes and logouts, so [FindByToken] has at most one
    candidate row. *)
Theorem tokens_stay_unique
    (hash : string -> string) (ops : list authManager.Op)
    (t : list sessionRepository.Session) :
  NoDup (sessionRepository.Token <$> t) ->
  NoDup (sessionRepository.Token <$> authManager.run hash ops t).
Proof.
  revert t. unfold authManager.run.
  induction ops as [|op ops IH]; intros t Ht; [done|].
  simpl. apply IH. clear IH.
  assert (Hrev : forall fault cond now t0,
            NoDup (sessionRepository.Token <$> t0) ->
            NoDup (sessionRepository.Token <$>
                     (sessionRepository.update_where fault cond
                        (sessionRepository.revoke now) t0).1)).
  { intros. by rewrite update_where_tokens. }
  assert (Hcs : forall env u,
            NoDup (sessionRepository.Token <$>
                     (authManager.createSession hash env u t).1)).
  { intros env u. unfold authManager.createSession.
    destruct (authManager.a_refresh env) as [[tok handle]|]; [|done].
    destruct (sessionRepository.Insert _ _ t) as [t1 [row|e]] eqn:Hins.
    - apply Insert_Ok_fresh_token in Hins
        as (t2 & -> & Htok & Hrt & _ & _ & Hfresh).
      simpl. rewrite fmap_app, Htok. simpl.
      apply NoDup_app. split; [done|]. split; [|apply NoDup_singleton].
      intros x Hx Hx'. apply list_elem_of_singleton in Hx'. subst x.
      rewrite Hrt in Hx. done.
    - simpl. unfold sessionRepository.Insert in Hins.
      destruct (sessionRepository.ie_insert_fault _);
        [|destruct (existsb _ _); [|discriminate]];
        injection Hins as <- _;
        unfold sessionRepository.RevokeByUserID,
          sessionRepository.RevokeByToken;
        by do 2 apply Hrev. }
  destruct op as [env|env claims|env claims]; simpl.
  - unfold authManager.Login.
    destruct (authManager.a_user env); [|done].
    destruct (authManager.a_access env); [|done]. apply Hcs.
  - unfold authManager.RefreshToken.
    destruct claims as [raw|]; [|done]. case_decide; [done|].
    destruct (authManager.validateSession _ _ _) as [session|]; [|done].
    destruct (authManager.a_user env); [|done].
    destruct (authManager.a_access env); [|done].
    specialize (Hcs env (sessionRepository.UserID session)).
    destruct (authManager.createSession _ _ _ _) as [t' [tok|e]];
      simpl in *; [|done].
    by apply Hrev.
  - unfold authManager.Logout.
    destruct claims as [raw|]; [|done]. case_decide; [done|].
    pose proof (Hrev (authManager.a_revoke_fault env)
                  (fun s => bool_decide (sessionRepository.Token s = hash raw))
                  (sessionRepository.ie_now (authManager.a_insert env)) t Ht)
      as Hr.
    unfold sessionRepository.RevokeByToken.
    by destruct (sessionRepository.update_where _ _ _ _) as [t' [e|]].
Qed.


Lemma validateSession_never_reports_revoked_witness :
  revoked_are_tombstoned [] /\
  authManager.validateSession (auth_env 99 "s9" "u1" "R9" "H9") "h:H1"
    (authManager.run sample_hash sample_ops [])
    <> Err authManager.ErrRefreshTokenRevoked.
Proof.
  split; [constructor|].
  apply (validateSession_never_reports_revoked sample_hash sample_ops []).
  constructor.
Defined.




Lemma Insert_failure_still_revokes_witness :
  authManager.active_count "u1" table_after_login = 1%nat /\
  authManager.active_count "u1"
    (sessionRepository.Insert
       (sample_insert_env "s9" (Some "connection reset"%string))
       sample_session table_after_login).1 = 0%nat.
Proof.
  split; [reflexivity|].
  apply (Insert_failure_still_revokes
           (sample_insert_env "s9" (Some "connection reset"%string))
           sample_session table_after_login _ "connection reset"%string).
  - reflexivity.
  - reflexivity.
Defined.

Lemma tokens_stay_unique_witness :
  NoDup (sessionRepository.Token <$> authManager.run sample_hash sample_ops []).
Proof.
  apply (tokens_stay_unique sample_hash sample_ops []). constructor.
Defined.


(** ** More on the jobs table *)

#[local] Instance null_last_le_total : Total jobRepository.null_last_le.
Proof. intros [a|] [b|]; simpl; try tauto. lia. Qed.

#[local] Instance null_last_le_trans : Transitive jobRepository.null_last_le.
Proof. intros [a|] [b|] [c|]; simpl; try tauto. lia. Qed.

#[local] Instance retry_order_total : Total jobRepository.retry_order.
Proof.
  intros a b. unfold jobRepository.retry_order.
  destruct (Z.lt_trichotomy (entity.Priority a) (entity.Priority b))
    as [Hlt|[Heq|Hgt]].
  - right. by left.
  - destruct (null_last_le_total (entity.UpdatedAt a) (entity.UpdatedAt b)).
    + left. by right.
    + right. right. by split.
  - left. left. lia.
Qed.

#[local] Instance retry_order_trans : Transitive jobRepository.retry_order.
Proof.
  intros a b c. unfold jobRepository.retry_order.
  intros [Hab|[Hab Hab']] [Hbc|[Hbc Hbc']].
  - left. lia.
  - left. lia.
  - left. lia.
  - right. split; [lia|]. by etrans.
Qed.

#[local] Instance newest_first_total : Total jobRepository.newest_first.
Proof. intros a b. unfold jobRepository.newest_first. lia. Qed.

#[local] Instance newest_first_trans : Transitive jobRepository.newest_first.
Proof. intros a b c. unfold jobRepository.newest_first. lia. Qed.

Lemma length_sql_limit {A} (n : Z) (l : list A) :
  0 < n -> (Z.of_nat (length (jobRepository.sql_limit n l)) <= n).
Proof.
  intros Hn. unfold jobRepository.sql_limit.
  destruct (Z.ltb_spec 0 n); [|lia].
  rewrite length_take. lia.
Qed.

(** X8: [GetRetryableJobs] returns only rows of the table that are FAILED,
    have attempts left, are not tombstoned and were last updated strictly
    before the given time (a row never updated is not returned); the list
    is ordered by priority descending, then by [updated_at] ascending, and
    for a positive limit holds at most that many rows. *)
Theorem GetRetryableJobs_filter_and_order
    (beforeTime limit : Z) (db : gmap string entity.Job) :
  Forall (fun j =>
            j ∈ jobRepository.rows db /\
            entity.Status j = job.Failed /\
            entity.Attempts j < entity.MaxAttempts j /\
            entity.DeletedAt j = None /\
            match entity.UpdatedAt j with
            | None => False
            | Some t => t < beforeTime
            end)
         (jobRepository.GetRetryableJobs beforeTime limit db) /\
  StronglySorted jobRepository.retry_order
    (jobRepository.GetRetryableJobs beforeTime limit db) /\
  (0 < limit ->
   Z.of_nat (length (jobRepository.GetRetryableJobs beforeTime limit db))
     <= limit).
Proof.
  unfold jobRepository.GetRetryableJobs. split; [|split].
  - apply Forall_forall. intros j Hj.
    apply elem_of_sql_limit in Hj. rewrite merge_sort_Permutation in Hj.
    apply list_elem_of_In, filter_In in Hj as [Hin Hv].
    split; [by apply list_elem_of_In|].
    unfold jobRepository.retryable in Hv.
    apply andb_prop in Hv as [Hv Hupd]. apply andb_prop in Hv as [Hv Hdel].
    apply andb_prop in Hv as [Hst Hatt].
    apply bool_decide_eq_true in Hst, Hatt, Hdel. repeat split; [done..|].
    destruct (entity.UpdatedAt j); [|done].
    by apply bool_decide_eq_true in Hupd.
  - apply StronglySorted_sql_limit, StronglySorted_merge_sort; apply _.
  - apply length_sql_limit.
Qed.

Lemma GetRetryableJobs_filter_and_order_witness :
  entity.ID <$> jobRepository.GetRetryableJobs 150 100 failed_db
    = ["f1"]%string /\
  Z.of_nat (length (jobRepository.GetRetryableJobs 1000 1 failed_db)) <= 1.
Proof.
  split; [vm_compute; reflexivity|].
  apply (proj2 (proj2 (GetRetryableJobs_filter_and_order 1000 1 failed_db))).
  lia.
Defined.

Example GetRetryableJobs_order :
  entity.ID <$> jobRepository.GetRetryableJobs 1000 100 failed_db
    = ["f2"; "f1"]%string.
Proof. vm_compute. reflexivity. Qed.

(** X9: the manager's [GetJobsByStatus] returns only visible rows of the
    requested status, newest first, and never more than the limit, which
    is 50 when the caller passes zero or a negative number. *)
Theorem GetJobsByStatus_filter_order_and_default_limit
    (status : job.Status) (limit : Z) (db : gmap string entity.Job) :
  Forall (fun j =>
            j ∈ jobRepository.rows db /\
            entity.Status j = status /\
            entity.DeletedAt j = None)
         (jobManager.GetJobsByStatus status limit db) /\
  StronglySorted jobRepository.newest_first
    (jobManager.GetJobsByStatus status limit db) /\
  Z.of_nat (length (jobManager.GetJobsByStatus status limit db))
    <= (if limit <=? 0 then 50 else limit).
Proof.
  unfold jobManager.GetJobsByStatus, jobRepository.GetJobsByStatus.
  split; [|split].
  - apply Forall_forall. intros j Hj.
    apply elem_of_sql_limit in Hj. rewrite merge_sort_Permutation in Hj.
    apply list_elem_of_In, filter_In in Hj as [Hin Hv].
    split; [by apply list_elem_of_In|].
    unfold jobRepository.has_status in Hv.
    apply andb_prop in Hv as [Hst Hdel].
    by apply bool_decide_eq_true in Hst, Hdel.
  - apply StronglySorted_sql_limit, StronglySorted_merge_sort; apply _.
  - apply length_sql_limit. destruct (Z.leb_spec limit 0); lia.
Qed.

Example GetJobsByStatus_newest_first :
  entity.ID <$> jobManager.GetJobsByStatus job.Pending 0 mixed_db
    = ["b"; "j1"; "c"; "d"; "a"]%string.
Proof. vm_compute. reflexivity. Qed.

Lemma alter_missing {A} (f : A -> A) (id : string) (m : gmap string A) :
  m !! id = None -> alter f id m = m.
Proof. intros Hm. apply alter_id. intros x Hx. congruence. Qed.



(** X11: an update that names an identifier without row is a silent
    no-op: each of the eight update statements leaves the table exactly
    as it was (and, returning the driver's result only, reports no
    error). *)
Theorem update_of_missing_job_is_noop
    (db : gmap string entity.Job) (id : string) (st : job.Status)
    (msg : string) (t now : Z) :
  db !! id = None ->
  jobRepository.UpdateStatus id st msg now db = db /\
  jobRepository.UpdateStartTime id t now db = db /\
  jobRepository.UpdateCompleteTime id t now db = db /\
  jobRepository.IncrementAttempts id now db = db /\
  jobRepository.UpdateJobToProcessing id t now db = db /\
  jobRepository.UpdateJobToCompleted id t now db = db /\
  jobRepository.UpdateJobToFailed id msg now db = db /\
  jobRepository.UpdateJobToRetrying id msg now db = db.
Proof.
  intros Hid.
  repeat split;
    unfold jobRepository.UpdateStatus, jobRepository.UpdateStartTime,
      jobRepository.UpdateCompleteTime, jobRepository.IncrementAttempts,
      jobRepository.UpdateJobToProcessing, jobRepository.UpdateJobToCompleted,
      jobRepository.UpdateJobToFailed, jobRepository.UpdateJobToRetrying,
      jobRepository.update_live, jobRepository.update_any;
    by apply alter_missing.
Qed.

Lemma update_of_missing_job_is_noop_witness :
  jobRepository.UpdateJobToFailed "nobody" "boom" 10 mixed_db = mixed_db.
Proof.
  apply (update_of_missing_job_is_noop mixed_db "nobody" job.Failed "boom" 0 10).
  vm_compute. reflexivity.
Defined.

(** X12: a tombstoned row is invisible to [GetByID] and is left untouched
    by the six updates that filter on [deleted_at IS NULL]; the two
    updates without that filter, [IncrementAttempts] and
    [UpdateCompleteTime], still write to it. *)
Theorem tombstoned_row_updates
    (db : gmap string entity.Job) (id : string) (j : entity.Job)
    (deleted : Z) (st : job.Status) (msg : string) (t now : Z) :
  db !! id = Some j ->
  entity.DeletedAt j = Some deleted ->
  jobRepository.GetByID id db = None /\
  jobRepository.UpdateStatus id st msg now db = db /\
  jobRepository.UpdateStartTime id t now db = db /\
  jobRepository.UpdateJobToProcessing id t now db = db /\
  jobRepository.UpdateJobToCompleted id t now db = db /\
  jobRepository.UpdateJobToFailed id msg now db = db /\
  jobRepository.UpdateJobToRetrying id msg now db = db /\
  (exists j',
     jobRepository.IncrementAttempts id now db !! id = Some j' /\
     entity.Attempts j' = entity.Attempts j + 1) /\
  (exists j',
     jobRepository.UpdateCompleteTime id t now db !! id = Some j' /\
     entity.CompletedAt j' = Some t).
Proof.
  intros Hj Hdel.
  assert (Hlive : forall f, jobRepository.update_live f id db = db).
  { intros f. unfold jobRepository.update_live. apply alter_id.
    intros x Hx. rewrite Hj in Hx. injection Hx as <-. by rewrite Hdel. }
  split; [unfold jobRepository.GetByID; by rewrite Hj, Hdel|].
  repeat split; try apply Hlive.
  - unfold jobRepository.IncrementAttempts, jobRepository.update_any.
    rewrite lookup_alter, decide_True, Hj by done. by eexists.
  - unfold jobRepository.UpdateCompleteTime, jobRepository.update_any.
    rewrite lookup_alter, decide_True, Hj by done. by eexists.
Qed.

Lemma tombstoned_row_updates_witness :
  jobRepository.GetByID "d1" tombstoned_db = None /\
  jobRepository.UpdateJobToFailed "d1" "boom" 10 tombstoned_db = tombstoned_db.
Proof.
  pose proof (tombstoned_row_updates tombstoned_db "d1" tombstoned_job 9
                job.Failed "boom" 0 10) as H.
  destruct H as (Hget & _ & _ & _ & _ & Hfail & _).
  - vm_compute. reflexivity.
  - reflexivity.
  - split; [exact Hget | exact Hfail].
Defined.

(** ** More on the Redis queue *)

Lemma list_at_enqueue_all (now : Z) (js : list entity.Job) (r : queue.Redis) :
  queue.list_at queue.QueueKey (enqueue_all now js r) =
    map queue.WJob (reverse js) ++ queue.list_at queue.QueueKey r.
Proof.
  revert r. unfold enqueue_all.
  induction js as [|j js IH]; intros r; [done|].
  cbn [foldl]. rewrite IH, list_at_Enqueue, reverse_cons, map_app.
  cbn [map app]. by rewrite <- app_assoc.
Qed.

Lemma Dequeue_job (r : queue.Redis) (front : list queue.wire)
    (j : entity.Job) :
  queue.list_at queue.QueueKey r = front ++ [queue.WJob j] ->
  exists r',
    queue.Dequeue None queue.GetPriorityQueues r = (r', Ok (Some j)) /\
    queue.list_at queue.QueueKey r' = front /\
    queue.zsets r' = queue.zsets r.
Proof.
  intros Hq. unfold queue.Dequeue, queue.GetPriorityQueues. simpl.
  rewrite Hq, pop_last_snoc. simpl. eexists. split; [reflexivity|].
  split; [|done]. by rewrite list_at_store_list, decide_True.
Qed.

Lemma dequeue_n_jobs (ks : list entity.Job) (r : queue.Redis)
    (front : list queue.wire) :
  queue.list_at queue.QueueKey r = front ++ map queue.WJob (reverse ks) ->
  exists r',
    dequeue_n (length ks) r = (map (fun j => Ok (Some j)) ks, r') /\
    queue.list_at queue.QueueKey r' = front.
Proof.
  revert r. induction ks as [|k ks IH]; intros r Hq.
  - exists r. simpl in *. by rewrite app_nil_r in Hq.
  - rewrite reverse_cons, map_app, app_assoc in Hq. simpl in Hq.
    destruct (Dequeue_job r _ k Hq) as (r1 & Hd & Hq1 & _).
    destruct (IH r1 Hq1) as (r' & Hn & Hq').
    exists r'. cbn [length dequeue_n]. rewrite Hd, Hn. done.
Qed.

(** X13: the queue is first in, first out.  Jobs enqueued one after the
    other into an empty queue give a queue of that depth, and as many
    calls of [Dequeue] return exactly these jobs in the order in which
    they were enqueued and leave the queue empty, so that the next call
    returns no job and no error. *)
Theorem queue_is_fifo (now : Z) (js : list entity.Job) (r : queue.Redis) :
  queue.list_at queue.QueueKey r = [] ->
  queue.GetQueueDepth queue.QueueKey (enqueue_all now js r)
    = Z.of_nat (length js) /\
  exists r',
    dequeue_n (length js) (enqueue_all now js r)
      = (map (fun j => Ok (Some j)) js, r') /\
    queue.list_at queue.QueueKey r' = [] /\
    queue.Dequeue None queue.GetPriorityQueues r' = (r', Ok None).
Proof.
  intros Hempty.
  pose proof (list_at_enqueue_all now js r) as Hq. rewrite Hempty in Hq.
  split.
  - unfold queue.GetQueueDepth, queue.LLen.
    by rewrite Hq, app_nil_r, length_map, length_reverse.
  - rewrite app_nil_r in Hq.
    destruct (dequeue_n_jobs js (enqueue_all now js r) [] Hq)
      as (r' & Hn & Hq').
    exists r'. split; [done|]. split; [done|].
    unfold queue.Dequeue, queue.GetPriorityQueues. simpl. by rewrite Hq'.
Qed.

Lemma queue_is_fifo_witness :
  (dequeue_n 2
     (enqueue_all 5 [mk_pending "a" 0 1; mk_pending "b" 3 2] queue.empty)).1
  = [Ok (Some (mk_pending "a" 0 1)); Ok (Some (mk_pending "b" 3 2))].
Proof.
  destruct (proj2 (queue_is_fifo 5 [mk_pending "a" 0 1; mk_pending "b" 3 2]
                     queue.empty eq_refl)) as (r' & Hn & _).
  simpl length in Hn. rewrite Hn. reflexivity.
Defined.

Lemma zset_at_ZAdd (key key' member : string) (score : Z) (r : queue.Redis) :
  queue.zset_at key' (queue.ZAdd key member score r) =
    if decide (key = key') then <[member := score]> (queue.zset_at key r)
    else queue.zset_at key' r.
Proof.
  unfold queue.zset_at at 1, queue.ZAdd. simpl.
  rewrite lookup_insert. by case_decide.
Qed.

Lemma zset_at_ZRem (key key' member : string) (r : queue.Redis) :
  queue.zset_at key' (queue.ZRem key member r) =
    if decide (key = key') then delete member (queue.zset_at key r)
    else queue.zset_at key' r.
Proof.
  unfold queue.zset_at at 1, queue.ZRem. simpl.
  rewrite lookup_insert. by case_decide.
Qed.

(** X14: a job scheduled for a later time is not held back by the queue.
    [Enqueue] pushes it like any other job and in addition records its
    identifier, with the scheduled second as score, in the retry schedule;
    on an otherwise empty queue the next [Dequeue] returns it at once. *)
Theorem scheduled_job_is_dequeued_at_once
    (now t : Z) (j : entity.Job) (r : queue.Redis) :
  entity.ScheduledAt j = Some t ->
  now < t ->
  queue.list_at queue.QueueKey r = [] ->
  exists r1 r2,
    queue.Enqueue None now j r = (r1, None) /\
    queue.zset_at queue.RetrySetKey r1 !! entity.ID j = Some (queue.Unix t) /\
    queue.Dequeue None queue.GetPriorityQueues r1 = (r2, Ok (Some j)).
Proof.
  intros Hs Hnow Hempty.
  pose proof (list_at_Enqueue now j r) as Hq. rewrite Hempty in Hq.
  unfold queue.Enqueue in *. rewrite Hs in *.
  destruct (Z.ltb_spec now t); [|lia]. simpl in *.
  destruct (Dequeue_job _ [] j Hq) as (r2 & Hd & _).
  eexists _, r2. split; [reflexivity|]. split; [|exact Hd].
  rewrite zset_at_ZAdd, decide_True by done. by rewrite lookup_insert_eq.
Qed.

Lemma scheduled_job_is_dequeued_at_once_witness :
  exists r1 r2,
    queue.Enqueue None 5 scheduled_job queue.empty = (r1, None) /\
    queue.zset_at queue.RetrySetKey r1 !! "j1"%string = Some (queue.Unix 105) /\
    queue.Dequeue None queue.GetPriorityQueues r1 = (r2, Ok (Some scheduled_job)).
Proof.
  apply (scheduled_job_is_dequeued_at_once 5 105 scheduled_job queue.empty).
  - reflexivity.
  - lia.
  - reflexivity.
Defined.

(** X15: the bookkeeping sets.  [MarkFailed] always takes the job out of
    the processing set; it enters the job into the retry schedule, due at
    the current time plus the delay, exactly when the delay is positive,
    and otherwise leaves the schedule alone.  [MarkCompleted] takes the
    job out of the processing set that [MarkProcessing] put it into.
    None of the three touches a queue. *)
Theorem processing_set_bookkeeping
    (r : queue.Redis) (jobID : string) (now retryDelay : Z) :
  let failed := (queue.MarkFailed None now jobID retryDelay r).1 in
  let done_ :=
    (queue.MarkCompleted None jobID
       (queue.MarkProcessing None now jobID r).1).1 in
  queue.zset_at queue.ProcessingSetKey failed !! jobID = None /\
  queue.zset_at queue.RetrySetKey failed =
    (if 0 <? retryDelay
     then <[jobID := queue.Unix (now + retryDelay)]>
            (queue.zset_at queue.RetrySetKey r)
     else queue.zset_at queue.RetrySetKey r) /\
  queue.zset_at queue.ProcessingSetKey
    (queue.MarkProcessing None now jobID r).1 !! jobID
    = Some (queue.Unix now) /\
  queue.zset_at queue.ProcessingSetKey done_ !! jobID = None /\
  queue.lists failed = queue.lists r /\
  queue.lists done_ = queue.lists r.
Proof.
  assert (Hne : queue.RetrySetKey <> queue.ProcessingSetKey) by done.
  cbv zeta. unfold queue.MarkFailed, queue.MarkCompleted, queue.MarkProcessing.
  cbn [fst].
  split; [|split; [|split; [|split; [|split]]]].
  - destruct (0 <? retryDelay).
    + rewrite zset_at_ZAdd, decide_False, zset_at_ZRem, decide_True by done.
      by rewrite lookup_delete_eq.
    + rewrite zset_at_ZRem, decide_True by done. by rewrite lookup_delete_eq.
  - destruct (0 <? retryDelay).
    + rewrite zset_at_ZAdd, decide_True by done.
      by rewrite zset_at_ZRem, decide_False.
    + by rewrite zset_at_ZRem, decide_False.
  - rewrite zset_at_ZAdd, decide_True by done. by rewrite lookup_insert_eq.
  - rewrite zset_at_ZRem, decide_True by done. by rewrite lookup_delete_eq.
  - by destruct (0 <? retryDelay).
  - done.
Qed.

(** ** More on the worker pool *)

(** X16: the activity counters never go below zero, and a decrement undoes
    an increment.  For counters that are non-negative (and below the
    largest 64-bit integer), [decrementActiveWorkers] leaves both
    counters non-negative, at zero it changes nothing, and after
    [incrementActiveWorkers] it gives the statistics back as they were. *)
Theorem activity_counters_stay_non_negative (s : workerPool.PoolStats) :
  0 <= workerPool.ActiveWorkers s < 2 ^ 63 - 1 ->
  0 <= workerPool.ProcessingJobs s < 2 ^ 63 - 1 ->
  0 <= workerPool.ActiveWorkers (workerPool.decrementActiveWorkers s) /\
  0 <= workerPool.ProcessingJobs (workerPool.decrementActiveWorkers s) /\
  (workerPool.ActiveWorkers s = 0 ->
   workerPool.ActiveWorkers (workerPool.decrementActiveWorkers s) = 0) /\
  workerPool.decrementActiveWorkers (workerPool.incrementActiveWorkers s) = s.
Proof.
  intros Ha Hp.
  assert (H63 : 2 ^ 63 = 9223372036854775808) by reflexivity.
  unfold workerPool.decrementActiveWorkers, workerPool.incrementActiveWorkers.
  simpl. repeat split.
  - destruct (Z.ltb_spec 0 (workerPool.ActiveWorkers s)); [|lia].
    rewrite int64_wrap_small; lia.
  - destruct (Z.ltb_spec 0 (workerPool.ProcessingJobs s)); [|lia].
    rewrite int64_wrap_small; lia.
  - intros ->. reflexivity.
  - rewrite (int64_wrap_small (workerPool.ActiveWorkers s + 1)) by lia.
    rewrite (int64_wrap_small (workerPool.ProcessingJobs s + 1)) by lia.
    destruct (Z.ltb_spec 0 (workerPool.ActiveWorkers s + 1)); [|lia].
    destruct (Z.ltb_spec 0 (workerPool.ProcessingJobs s + 1)); [|lia].
    rewrite !int64_wrap_small by lia.
    destruct s; simpl. f_equal; lia.
Qed.

Lemma activity_counters_stay_non_negative_witness :
  workerPool.decrementActiveWorkers
    (workerPool.incrementActiveWorkers (workerPool.stats sample_pool))
  = workerPool.stats sample_pool.
Proof.
  apply (activity_counters_stay_non_negative (workerPool.stats sample_pool)).
  - vm_compute. split; [discriminate | reflexivity].
  - vm_compute. split; [discriminate | reflexivity].
Defined.

(** X17: the statistics report the queue depth.  After
    [collectQueueStats] whose [LLEN] did not fail, the snapshot that
    [GetStats] returns maps the job queue to the number of entries the
    queue holds; when [LLEN] fails the map is left as it was. *)
Theorem collected_depth_is_reported
    (faults : string -> option error) (r : queue.Redis)
    (p : workerPool.pool) (h : gmap positive (gmap string Z)) :
  workerPool.QueueDepths (workerPool.stats p) ∈ dom h ->
  let h1 := workerPool.collectQueueStats faults r p h in
  exists snap h2,
    workerPool.GetStats p h1 = (snap, p, h2) /\
    workerPool.map_contents (workerPool.QueueDepths snap) h2
      !! queue.QueueKey =
      match faults queue.QueueKey with
      | None => Some (Z.of_nat (length (queue.list_at queue.QueueKey r)))
      | Some _ =>
          workerPool.map_contents (workerPool.QueueDepths (workerPool.stats p)) h
            !! queue.QueueKey
      end.
Proof.
  intros Halloc. cbv zeta.
  set (src := workerPool.QueueDepths (workerPool.stats p)) in *.
  set (h1 := workerPool.collectQueueStats faults r p h).
  assert (Hh1 : src ∈ dom h1 /\
                workerPool.map_contents src h1 !! queue.QueueKey =
                match faults queue.QueueKey with
                | None => Some (Z.of_nat (length (queue.list_at queue.QueueKey r)))
                | Some _ => workerPool.map_contents src h !! queue.QueueKey
                end).
  { unfold h1, workerPool.collectQueueStats, queue.GetPriorityQueues.
    cbn [foldl]. fold src. destruct (faults queue.QueueKey); [done|].
    split.
    - unfold workerPool.map_store. rewrite dom_insert_L. set_solver.
    - rewrite map_contents_store, decide_True by done.
      by rewrite lookup_insert_eq. }
  destruct Hh1 as [Halloc1 Hdepth].
  unfold workerPool.GetStats, workerPool.make_map. fold src.
  set (l := fresh (dom h1)).
  assert (Hfresh : l ∉ dom h1) by apply is_fresh.
  assert (Hne : src <> l) by (intros ->; done).
  assert (Hempty : workerPool.map_contents l (<[l := ∅]> h1) = ∅).
  { unfold workerPool.map_contents. by rewrite lookup_insert_eq. }
  destruct (copy_entries_spec src l (<[l := ∅]> h1) Hne Hempty)
    as [_ Hcopy].
  eexists _, _. split; [reflexivity|].
  cbn [workerPool.QueueDepths]. rewrite Hcopy, <- Hdepth.
  unfold workerPool.map_contents. by rewrite lookup_insert_ne.
Qed.

Lemma collected_depth_is_reported_witness :
  exists snap h2,
    workerPool.GetStats sample_pool
      (workerPool.collectQueueStats (fun _ => None) poisoned_redis
         sample_pool sample_heap) = (snap, sample_pool, h2) /\
    workerPool.map_contents (workerPool.QueueDepths snap) h2
      !! queue.QueueKey = Some 2.
Proof.
  apply (collected_depth_is_reported (fun _ => None) poisoned_redis
           sample_pool sample_heap).
  apply elem_of_dom. exists (<["{jobs}:queue"%string := 7]> ∅).
  vm_compute. reflexivity.
Defined.

(** X18: inside the range where the product fits 64 bits (attempts 1 to
    29) the pool's backoff is the doubling law capped at ten minutes: it
    lies between 30 seconds and 10 minutes and never decreases from one
    attempt to the next. *)
Theorem calculateRetryDelay_range_and_monotone
    (conv_overflow attempts : Z) :
  1 <= attempts <= 29 ->
  workerPool.calculateRetryDelay conv_overflow attempts =
    Z.min (30 * Second * 2 ^ (attempts - 1)) (10 * Minute) /\
  30 * Second <= workerPool.calculateRetryDelay conv_overflow attempts
    <= 10 * Minute /\
  (attempts < 29 ->
   workerPool.calculateRetryDelay conv_overflow attempts <=
     workerPool.calculateRetryDelay conv_overflow (attempts + 1)).
Proof.
  intros Ha.
  pose proof (calculateRetryDelay_law conv_overflow attempts Ha) as Hlaw.
  pose proof (pow2_bound (attempts - 1) ltac:(lia)) as Hp.
  assert (H28 : 2 ^ 28 = 268435456) by reflexivity.
  split; [done|]. rewrite Hlaw.
  split.
  - unfold Minute, Second. remember (2 ^ (attempts - 1)) as x in *. lia.
  - intros Hlt.
    rewrite (calculateRetryDelay_law conv_overflow (attempts + 1)) by lia.
    replace (attempts + 1 - 1) with (Z.succ (attempts - 1)) by lia.
    rewrite Z.pow_succ_r by lia.
    unfold Minute, Second. remember (2 ^ (attempts - 1)) as x in *. lia.
Qed.

Lemma calculateRetryDelay_range_and_monotone_witness :
  workerPool.calculateRetryDelay 0 3 = 120 * Second.
Proof.
  rewrite (proj1 (calculateRetryDelay_range_and_monotone 0 3 ltac:(lia))).
  reflexivity.
Defined.

(** X19: the backoff of the SQS queue.  [CalculateRetryDelay] returns the
    base delay for an attempt number of zero or less, and for a positive
    attempt number whose doubled delay fits 64 bits the smaller of
    [base * 2^(attempt-1)] and the maximum delay. *)
Theorem sqs_CalculateRetryDelay_law
    (conv_overflow baseRetryDelay maxRetryDelay attempt : Z) :
  (attempt <= 0 ->
   sqs.CalculateRetryDelay (workerPool.pow2_duration conv_overflow)
     baseRetryDelay maxRetryDelay attempt = baseRetryDelay) /\
  (1 <= attempt <= 63 ->
   0 <= baseRetryDelay ->
   baseRetryDelay * 2 ^ (attempt - 1) < 2 ^ 63 ->
   sqs.CalculateRetryDelay (workerPool.pow2_duration conv_overflow)
     baseRetryDelay maxRetryDelay attempt =
     Z.min (baseRetryDelay * 2 ^ (attempt - 1)) maxRetryDelay).
Proof.
  unfold sqs.CalculateRetryDelay, workerPool.pow2_duration. split.
  - intros Ha. by destruct (Z.leb_spec attempt 0); [|lia].
  - intros Ha Hb Hfit.
    assert (H63 : 2 ^ 63 = 9223372036854775808) by reflexivity.
    destruct (Z.leb_spec attempt 0); [lia|].
    rewrite (int64_wrap_small (attempt - 1)) by lia.
    destruct (Z.ltb_spec (attempt - 1) 0); [lia|].
    destruct (Z.leb_spec (attempt - 1) 62); [|lia].
    assert (0 < 2 ^ (attempt - 1)) by (apply Z.pow_pos_nonneg; lia).
    rewrite int64_wrap_small by nia.
    destruct (Z.ltb_spec maxRetryDelay (baseRetryDelay * 2 ^ (attempt - 1)));
      lia.
Qed.

Lemma sqs_CalculateRetryDelay_law_witness :
  sqs.CalculateRetryDelay (workerPool.pow2_duration 0)
    (5 * Second) (2 * Minute) 10 = 2 * Minute.
Proof.
  rewrite (proj2 (sqs_CalculateRetryDelay_law 0 (5 * Second) (2 * Minute) 10)).
  - reflexivity.
  - lia.
  - unfold Second. lia.
  - reflexivity.
Defined.

(** ** More on the SQS listener *)

Lemma deleteMessage_None (queueURL receiptHandle : string) (w : sqs.World) :
  sqs.deleteMessage None queueURL receiptHandle w =
    ({| sqs.w_jobs := sqs.w_jobs w; sqs.w_redis := sqs.w_redis w;
        sqs.w_broker := sqs.w_broker w ∖ {[ (queueURL, receiptHandle) ]} |},
     None).
Proof. reflexivity. Qed.

(** X20: poison messages are acknowledged and dropped.  For a message
    whose body is not JSON, whose type is empty or whose payload is
    absent or not an object, [processMessage] returns an error, admits no
    job, leaves the jobs table and the Redis queue as they were and
    deletes the message from the broker. *)
Theorem poison_message_is_acknowledged
    (env : jobManager.CreateEnv) (queueURL : string) (message : sqs.Message)
    (w : sqs.World) :
  poison message ->
  exists e,
    sqs.processMessage env None queueURL message w =
      ({| sqs.w_jobs := sqs.w_jobs w; sqs.w_redis := sqs.w_redis w;
          sqs.w_broker :=
            sqs.w_broker w ∖ {[ (queueURL, sqs.ReceiptHandle message) ]} |},
       None, Some e).
Proof.
  unfold poison, sqs.processMessage, sqs.parseMessage.
  destruct (sqs.MessageBody message) as [m|txt]; [|by eexists].
  unfold sqs.validateMessage. intros Hp.
  case_decide as Hty; [by eexists|].
  destruct Hp as [Hp|Hp]; [done|].
  destruct (sqs.msg_Payload m) as [v|] eqn:Hv; [|by eexists].
  unfold sqs.createJobFromMessage. rewrite Hv. simpl.
  destruct v; try discriminate; by eexists.
Qed.

Lemma poison_message_is_acknowledged_witness :
  exists e,
    sqs.processMessage sample_env None sample_queue_url poison_message
      sample_world =
      ({| sqs.w_jobs := ∅; sqs.w_redis := queue.empty;
          sqs.w_broker :=
            sqs.w_broker sample_world
              ∖ {[ (sample_queue_url, "rh-2"%string) ]} |},
       None, Some e).
Proof.
  apply (poison_message_is_acknowledged sample_env sample_queue_url
           poison_message sample_world).
  right. reflexivity.
Defined.

Lemma not_elem_of_removed (x : string * string) (X : gset (string * string)) :
  x ∉ X ∖ {[ x ]}.
Proof. apply not_elem_of_difference. right. by apply elem_of_singleton. Qed.

(** X21: with a working [DeleteMessage] the listener never leaves a
    message for redelivery.  Whatever the (decoded) body and whatever the
    job manager answers, after [processMessage] the receipt handle of the
    message is no longer in the broker: the branch that keeps a message
    is guarded by [shouldRetry], which is false for every job that
    [createJobFromMessage] builds. *)
Theorem processMessage_always_deletes
    (env : jobManager.CreateEnv) (queueURL : string) (message : sqs.Message)
    (w : sqs.World) :
  decoded message ->
  (queueURL, sqs.ReceiptHandle message)
    ∉ sqs.w_broker (sqs.processMessage env None queueURL message w).1.1.
Proof.
  intros _. unfold sqs.processMessage, sqs.parseMessage.
  destruct (sqs.MessageBody message) as [m|txt];
    [|apply not_elem_of_removed].
  destruct (sqs.validateMessage m); [apply not_elem_of_removed|].
  destruct (sqs.createJobFromMessage m _ queueURL) as [ev|e] eqn:Hev;
    [|apply not_elem_of_removed].
  unfold sqs.handleJobAndCleanup.
  destruct (sqs.HandleMessage env ev w) as [[w1 adm] [err|]].
  - rewrite (shouldRetry_event_job _ _ _ _ err Hev).
    apply not_elem_of_removed.
  - rewrite deleteMessage_None. apply not_elem_of_removed.
Qed.

Lemma processMessage_always_deletes_witness :
  (sample_queue_url, "rh-1"%string) ∈ sqs.w_broker sample_world /\
  (sample_queue_url, "rh-1"%string)
    ∉ sqs.w_broker
        (sqs.processMessage (failing_env "connection refused") None
           sample_queue_url claim_message sample_world).1.1.
Proof.
  split; [vm_compute; set_solver|].
  apply (processMessage_always_deletes (failing_env "connection refused")
           sample_queue_url claim_message sample_world).
  simpl. discriminate.
Defined.

(** X22: what a well-formed message becomes.  For a body with a non-empty
    type and an object payload, an unused identifier and no store fault,
    [processMessage] admits one PENDING job with the mapped type and
    three attempts, stores it under the generated identifier, puts it at
    the head of the queue and deletes the message.  The payload of the
    job holds the broker message id and queue under "_sqs_metadata", the
    original event type under "_sqs_source", and every other key of the
    message's payload unchanged. *)
Theorem well_formed_message_is_admitted
    (env : jobManager.CreateEnv) (queueURL : string) (message : sqs.Message)
    (m : sqs.SqsMessage) (fields : gmap string JValue) (w : sqs.World) :
  sqs.MessageBody message = sqs.BodyJSON m ->
  sqs.msg_Type m <> ""%string ->
  sqs.msg_Payload m = Some (JObj fields) ->
  sqs.w_jobs w !! jobManager.env_uuid env = None ->
  jobManager.env_db_fault env = None ->
  jobManager.env_queue_fault env = None ->
  exists w' j p,
    sqs.processMessage env None queueURL message w = (w', Some j, None) /\
    entity.ID j = jobManager.env_uuid env /\
    entity.Type_ j = sqs.convertEventTypeToJobType (sqs.msg_Type m) /\
    entity.Status j = job.Pending /\
    entity.Attempts j = 0 /\
    entity.MaxAttempts j = 3 /\
    entity.Payload j = Some p /\
    p !! "_sqs_metadata"%string =
      Some (sqs.sqs_metadata (sqs.getMessageID message) queueURL) /\
    (exists src,
       p !! "_sqs_source"%string = Some (JObj src) /\
       src !! "original_event_type"%string = Some (JStr (sqs.msg_Type m))) /\
    (forall k, k <> "_sqs_metadata"%string -> k <> "_sqs_source"%string ->
               p !! k = fields !! k) /\
    sqs.w_jobs w' = <[entity.ID j := j]> (sqs.w_jobs w) /\
    queue.list_at queue.QueueKey (sqs.w_redis w') =
      queue.WJob j :: queue.list_at queue.QueueKey (sqs.w_redis w) /\
    sqs.w_broker w' =
      sqs.w_broker w ∖ {[ (queueURL, sqs.ReceiptHandle message) ]}.
Proof.
  intros Hbody Hty Hpay Hfresh Hdb Hq.
  unfold sqs.processMessage, sqs.parseMessage, sqs.validateMessage.
  rewrite Hbody, decide_False, Hpay by done.
  unfold sqs.createJobFromMessage. rewrite Hpay. simpl.
  unfold sqs.handleJobAndCleanup, sqs.HandleMessage.
  match goal with
  | |- context [jobManager.CreateJob env ?req ?db ?r] =>
      destruct (jobManager.CreateJob env req db r) as [[db' r'] res] eqn:Hc;
      assert (Hreq : jobManager.req_Type req <> ""%string)
  end.
  { simpl. unfold sqs.convertEventTypeToJobType.
    repeat case_decide; done. }
  destruct res as [j|e].
  - apply CreateJob_Ok_inv in Hc
      as (_ & Hjt & _ & Hst & Ha & Hid & _ & Hmax & Hp & Hdb' & Hr').
    simpl in Hjt, Hmax, Hp.
    rewrite deleteMessage_None. simpl.
    eexists _, j, _. split; [reflexivity|].
    split; [done|]. split; [done|]. split; [done|]. split; [done|].
    split; [done|]. split; [exact Hp|].
    split; [by rewrite lookup_insert_ne, lookup_insert_eq|].
    split.
    { eexists. split; [by rewrite lookup_insert_eq|].
      by rewrite lookup_insert_eq. }
    split; [intros k Hk1 Hk2; by rewrite !lookup_insert_ne|].
    done.
  - exfalso. revert Hc. unfold jobManager.CreateJob.
    rewrite decide_False by done.
    unfold jobRepository.Create, queue.Enqueue. rewrite Hdb, Hq. simpl.
    rewrite Hfresh. discriminate.
Qed.

Lemma well_formed_message_is_admitted_witness :
  exists w' j p,
    sqs.processMessage sample_env None sample_queue_url claim_message
      sample_world = (w', Some j, None) /\
    entity.Type_ j = "init_claim"%string /\
    entity.MaxAttempts j = 3 /\
    entity.Payload j = Some p /\
    p !! "user"%string = Some (JStr "ext1").
Proof.
  destruct (well_formed_message_is_admitted sample_env sample_queue_url
              claim_message
              {| sqs.msg_Type := "claim";
                 sqs.msg_Payload :=
                   Some (JObj (<["user"%string := JStr "ext1"]>
                                 (<["amount"%string := JNum 1000]> ∅))) |}
              (<["user"%string := JStr "ext1"]>
                 (<["amount"%string := JNum 1000]> ∅))
              sample_world)
    as (w' & j & p & Hrun & _ & Hty & _ & _ & Hmax & Hp & _ & _ & Hkeys & _).
  - reflexivity.
  - discriminate.
  - reflexivity.
  - reflexivity.
  - reflexivity.
  - reflexivity.
  - exists w', j, p. split; [exact Hrun|]. split; [exact Hty|].
    split; [exact Hmax|]. split; [exact Hp|].
    rewrite Hkeys by discriminate. reflexivity.
Defined.

(** ** More on the worker service *)

Section ServiceMore.
Import entity.
Variable conv_overflow : Z.

Lemma open_remove (s s' : workerService.State) (A B : list Job) (c : Job)
    (g : Job -> Job) :
  Inv s -> open_copies s ->
  pending_copies s = A ++ c :: B ->
  pending_copies s' = A ++ B ->
  workerService.jobs s' = alter g (ID c) (workerService.jobs s) ->
  open_copies s'.
Proof.
  intros [_ Hnd _ _] Hopen Hp Hp' Hjobs. unfold open_copies in *.
  rewrite Hp in Hnd, Hopen.
  rewrite fmap_app, fmap_cons in Hnd.
  apply NoDup_app in Hnd as (HA & HAc & HcB).
  apply NoDup_cons in HcB as [HcB HB].
  rewrite Hp'. apply Forall_forall. intros c2 Hin.
  assert (Hne : ID c2 <> ID c).
  { intros Heq. apply elem_of_app in Hin as [Hin|Hin].
    - apply (HAc (ID c2)); [by apply list_elem_of_fmap_2|].
      rewrite Heq. by left.
    - apply HcB. rewrite <- Heq. by apply list_elem_of_fmap_2. }
  assert (Hc2 : copy_open (workerService.jobs s) c2).
  { eapply Forall_forall in Hopen; [exact Hopen|].
    apply elem_of_app in Hin as [Hin|Hin]; set_solver. }
  destruct Hc2 as (j & Hj & Hst). exists j. split; [|done].
  by rewrite Hjobs, lookup_alter_ne.
Qed.

Lemma open_keep (s s' : workerService.State) (id : string) (g : Job -> Job) :
  open_copies s ->
  pending_copies s' = pending_copies s ->
  workerService.jobs s' = alter g id (workerService.jobs s) ->
  (forall j, Status (g j) = Status j \/ Status (g j) = job.Processing) ->
  open_copies s'.
Proof.
  unfold open_copies. intros Hopen Hp Hjobs Hg. rewrite Hp.
  eapply Forall_impl; [exact Hopen|].
  intros c (j & Hj & Hst). rewrite Hjobs. unfold copy_open.
  rewrite lookup_alter. case_decide as Hid.
  - subst id. rewrite Hj. simpl. eexists. split; [reflexivity|].
    destruct (Hg j) as [-> | ->]; [done | by right].
  - by exists j.
Qed.

Lemma open_same (s s' : workerService.State) :
  open_copies s ->
  pending_copies s' = pending_copies s ->
  workerService.jobs s' = workerService.jobs s ->
  open_copies s'.
Proof. unfold open_copies. by intros Hopen -> ->. Qed.

Lemma worker_step_open (o : workerService.Oracle) (i : nat)
    (s : workerService.State) :
  Inv s -> open_copies s ->
  open_copies (workerService.worker_step conv_overflow o i s).
Proof.
  intros HI Hopen. unfold workerService.worker_step.
  destruct (workerService.busy s !! i) as [[c p]|] eqn:Hb; [|done].
  destruct (held_split _ _ _ Hb) as (A & B & HA & Hins & Hdel).
  set (Q := omap decode
              (queue.list_at queue.QueueKey (workerService.redis s))) in *.
  assert (Hpend : pending_copies s = Q ++ A ++ omap held [(c, p)] ++ B).
  { unfold pending_copies. by rewrite HA. }
  destruct p as [| | | | |jobErr|retryDelay].
  - unfold queue.MarkProcessing. destruct (workerService.o_fault o).
    + eapply (open_remove s _ (Q ++ A) B c (fun j => j)); try done.
      * by rewrite <- app_assoc.
      * unfold pending_copies. simpl. by rewrite Hdel, app_assoc.
      * apply alter_self.
    + eapply open_same; try done.
      unfold pending_copies. simpl. by rewrite Hins, HA.
  - unfold jobRepository.UpdateJobToProcessing.
    eapply open_keep; [done| | |].
    + unfold pending_copies. simpl. by rewrite Hins, HA.
    + simpl. apply exec_update_live.
    + intros j. destruct (workerService.o_fault o); [by left|].
      destruct (DeletedAt j); [by left | by right].
  - eapply open_same; try done;
      [|by repeat (case_decide || case_match)].
    unfold pending_copies.
    repeat (case_decide || case_match); simpl; by rewrite Hins, HA.
  - unfold jobRepository.UpdateJobToCompleted.
    eapply (open_remove s _ (Q ++ A) B c); [done|done| | |].
    + by rewrite <- app_assoc.
    + unfold pending_copies. simpl. by rewrite Hins, app_assoc.
    + simpl. apply exec_update_live.
  - eapply open_same; try done.
    unfold pending_copies. simpl.
    rewrite Hdel, HA. simpl.
    unfold queue.MarkCompleted. by destruct (workerService.o_fault o).
  - simpl. destruct (_ <=? _).
    + unfold jobRepository.UpdateJobToFailed.
      eapply (open_remove s _ (Q ++ A) B c); [done|done| | |].
      * by rewrite <- app_assoc.
      * unfold pending_copies. simpl. by rewrite Hins, app_assoc.
      * simpl. apply exec_update_live.
    + unfold jobRepository.UpdateJobToRetrying.
      eapply (open_remove s _ (Q ++ A) B c); [done|done| | |].
      * by rewrite <- app_assoc.
      * unfold pending_copies. simpl. by rewrite Hins, app_assoc.
      * simpl. apply exec_update_live.
  - eapply open_same; try done.
    unfold pending_copies. simpl.
    rewrite Hdel, HA. simpl.
    unfold queue.MarkFailed. destruct (workerService.o_fault o); [done|].
    simpl. by destruct (0 <? retryDelay).
Qed.

Lemma dequeue_step_open (o : workerService.Oracle) (s : workerService.State) :
  open_copies s -> open_copies (workerService.dequeue_step o s).
Proof.
  intros Hopen. unfold workerService.dequeue_step, queue.Dequeue.
  destruct (workerService.o_fault o); [by eapply open_same|].
  unfold queue.GetPriorityQueues. simpl.
  destruct (queue.pop_last _) as [[rest v]|] eqn:Hpop;
    [|by eapply open_same].
  apply pop_last_Some_inv in Hpop.
  destruct v as [j|txt]; simpl.
  - eapply open_same; try done.
    unfold pending_copies. simpl.
    rewrite list_at_store_list, decide_True by done.
    rewrite Hpop, omap_app. simpl. by rewrite <- app_assoc.
  - eapply open_same; try done.
    unfold pending_copies. simpl.
    rewrite list_at_store_list, decide_True by done.
    rewrite Hpop, omap_app. simpl. by rewrite app_nil_r.
Qed.

Lemma create_step_open (env : jobManager.CreateEnv)
    (req : jobManager.CreateJobRequest) (s : workerService.State) :
  open_copies s -> open_copies (workerService.create_step env req s).
Proof.
  intros Hopen. unfold workerService.create_step.
  destruct (CreateJob_cases env req (workerService.jobs s)
              (workerService.redis s))
    as [[Hdb Hr] | (j & Hfresh & Ha & Hm & Hst & He & Hdb & Hr)];
    destruct (jobManager.CreateJob _ _ _ _) as [[db r] res]; simpl in *;
    subst db.
  - subst r. by eapply open_same.
  - assert (Hkeep : forall c, copy_open (workerService.jobs s) c ->
              copy_open (<[ID j := j]> (workerService.jobs s)) c).
    { intros c (j0 & Hj0 & Hrest).
      assert (ID c <> ID j) by congruence.
      exists j0. by rewrite lookup_insert_ne. }
    unfold open_copies in *.
    destruct Hr as [-> | Hr].
    + simpl. eapply Forall_impl; [exact Hopen|]. exact Hkeep.
    + unfold pending_copies in *. simpl. rewrite Hr. simpl.
      apply Forall_cons. split.
      * exists j. rewrite lookup_insert_eq. split; [done | by left].
      * eapply Forall_impl; [exact Hopen|]. exact Hkeep.
Qed.

Lemma step_open (ev : workerService.Event) (s : workerService.State) :
  Inv s -> open_copies s ->
  open_copies (workerService.step conv_overflow ev s).
Proof.
  intros HI Hopen. destruct ev as [env req|o|i o|o|o]; simpl.
  - by apply create_step_open.
  - by apply dequeue_step_open.
  - by apply worker_step_open.
  - unfold workerService.tick_step.
    destruct (workerService.o_fault o); [done|].
    rewrite GetRetryableJobs_nil by apply HI.
    eapply open_same; done.
  - unfold workerService.scan_step. by rewrite (inv_scan _ HI).
Qed.

Lemma run_open (evs : list workerService.Event) (s : workerService.State) :
  Inv s -> open_copies s ->
  open_copies (workerService.run conv_overflow evs s).
Proof.
  revert s. unfold workerService.run.
  induction evs as [|ev evs IH]; intros s HI Hopen; [done|].
  simpl. apply IH; [by apply step_inv | by apply step_open].
Qed.

Lemma elem_of_pending_busy (s : workerService.State) (i : nat) (c : Job)
    (p : workerService.pc) :
  workerService.busy s !! i = Some (c, p) ->
  ahead p = true ->
  c ∈ pending_copies s.
Proof.
  intros Hb Hp. unfold pending_copies. apply elem_of_app. right.
  apply list_elem_of_omap. exists (c, p). split.
  - by eapply list_elem_of_lookup_2.
  - unfold held. simpl. by rewrite Hp.
Qed.

(** A step rewrites only rows that a pending copy points to (or adds a
    row under an unused identifier). *)
Lemma step_keeps_unheld_row (ev : workerService.Event)
    (s : workerService.State) (id : string) :
  workerService.scan s = [] ->
  (forall c, c ∈ pending_copies s -> ID c <> id) ->
  is_Some (workerService.jobs s !! id) ->
  workerService.jobs (workerService.step conv_overflow ev s) !! id =
    workerService.jobs s !! id.
Proof.
  intros Hscan Hfree Hsome. destruct ev as [env req|o|i o|o|o]; simpl.
  - unfold workerService.create_step.
    destruct (CreateJob_cases env req (workerService.jobs s)
                (workerService.redis s))
      as [[Hdb _] | (j & Hfresh & _ & _ & _ & _ & Hdb & _)];
      destruct (jobManager.CreateJob _ _ _ _) as [[db r] res]; simpl in *;
      subst db; [done|].
    apply lookup_insert_ne. intros Heq. rewrite Heq in Hfresh.
    rewrite Hfresh in Hsome. by destruct Hsome.
  - unfold workerService.dequeue_step.
    by destruct (queue.Dequeue _ _ _) as [r [[j|]|e]].
  - unfold workerService.worker_step.
    destruct (workerService.busy s !! i) as [[c p]|] eqn:Hb; [|done].
    destruct p as [| | | | |jobErr|retryDelay]; simpl.
    + unfold queue.MarkProcessing. by destruct (workerService.o_fault o).
    + unfold jobRepository.UpdateJobToProcessing.
      rewrite exec_update_live. apply lookup_alter_ne.
      by eapply Hfree, elem_of_pending_busy.
    + by repeat (case_decide || case_match).
    + unfold jobRepository.UpdateJobToCompleted.
      rewrite exec_update_live. apply lookup_alter_ne.
      by eapply Hfree, elem_of_pending_busy.
    + done.
    + assert (ID c <> id) by (by eapply Hfree, elem_of_pending_busy).
      destruct (_ <=? _); simpl.
      * unfold jobRepository.UpdateJobToFailed.
        rewrite exec_update_live. by apply lookup_alter_ne.
      * unfold jobRepository.UpdateJobToRetrying.
        rewrite exec_update_live. by apply lookup_alter_ne.
    + done.
  - unfold workerService.tick_step.
    by destruct (workerService.o_fault o).
  - unfold workerService.scan_step. by rewrite Hscan.
Qed.

Lemma settled_row_is_kept (evs : list workerService.Event)
    (s : workerService.State) (id : string) (j : Job) :
  Inv s -> open_copies s ->
  workerService.jobs s !! id = Some j ->
  settled (Status j) ->
  workerService.jobs (workerService.run conv_overflow evs s) !! id = Some j.
Proof.
  revert s. unfold workerService.run.
  induction evs as [|ev evs IH]; intros s HI Hopen Hj Hst; [done|].
  simpl. apply IH; [by apply step_inv | by apply step_open | | done].
  rewrite step_keeps_unheld_row; [done | apply HI | | by eexists].
  intros c Hc Heq. eapply Forall_forall in Hopen; [|exact Hc].
  destruct Hopen as (j0 & Hj0 & Hopen). rewrite Heq, Hj in Hj0.
  injection Hj0 as <-. unfold settled in Hst.
  destruct Hopen as [Ho|Ho]; rewrite Ho in Hst;
    by destruct Hst as [?|[?|?]].
Qed.

Lemma init_open (registry : gset string) :
  open_copies (workerService.init registry).
Proof. constructor. Qed.

End ServiceMore.

(** X23: no job is pending twice.  In every state the worker service
    reaches from the empty table and the empty queue, the jobs that are
    waiting in the queue or held by a worker that has not yet written its
    result have pairwise different identifiers, and each of them has a
    stored row (with the same identifier) that is still PENDING or
    PROCESSING. *)
Theorem pending_copies_are_unique_and_open
    (conv_overflow : Z) (registry : gset string)
    (evs : list workerService.Event) :
  let s := workerService.run conv_overflow evs (workerService.init registry) in
  NoDup (entity.ID <$> pending_copies s) /\
  forall c, c ∈ pending_copies s ->
    exists j,
      workerService.jobs s !! entity.ID c = Some j /\
      entity.ID j = entity.ID c /\
      (entity.Status j = job.Pending \/ entity.Status j = job.Processing).
Proof.
  simpl.
  pose proof (run_inv conv_overflow evs _ (init_inv registry)) as HI.
  pose proof (run_open conv_overflow evs _ (init_inv registry)
                (init_open registry)) as Hopen.
  split; [apply HI|].
  intros c Hc. eapply Forall_forall in Hopen; [|exact Hc].
  destruct Hopen as (j & Hj & Hst). exists j. split; [done|].
  split; [|done]. by destruct (inv_rows _ HI _ _ Hj) as (-> & _).
Qed.

(** X24: a finalized job is never touched again.  Once a reachable state
    stores a job as COMPLETED, FAILED or RETRYING, every continuation of
    the schedule (further job creations, dequeues, worker statements,
    scheduler ticks, with any faults and handler outcomes) leaves that row
    exactly as it is: in particular a RETRYING job is never moved back to
    PENDING by the service. *)
Theorem settled_rows_are_final
    (conv_overflow : Z) (registry : gset string)
    (evs evs' : list workerService.Event) (id : string) (j : entity.Job) :
  workerService.jobs
    (workerService.run conv_overflow evs (workerService.init registry))
    !! id = Some j ->
  settled (entity.Status j) ->
  workerService.jobs
    (workerService.run conv_overflow (evs ++ evs')
       (workerService.init registry))
    !! id = Some j.
Proof.
  intros Hj Hst. rewrite run_app.
  apply settled_row_is_kept; try done.
  - apply run_inv, init_inv.
  - apply run_open; [apply init_inv | apply init_open].
Qed.

(** X25: the service never retries a job.  In every reachable state each
    stored job has been attempted at most once, [GetRetryableJobs] selects
    nothing for any cut-off time and limit, and a tick of the retry
    scheduler leaves the state as it is. *)
Theorem no_job_is_retried
    (conv_overflow : Z) (registry : gset string)
    (evs : list workerService.Event) (beforeTime limit : Z)
    (o : workerService.Oracle) :
  let s := workerService.run conv_overflow evs (workerService.init registry) in
  (forall id j, workerService.jobs s !! id = Some j ->
                entity.Attempts j <= 1) /\
  jobRepository.GetRetryableJobs beforeTime limit (workerService.jobs s) = [] /\
  workerService.tick_step o s = s.
Proof.
  simpl.
  pose proof (run_inv conv_overflow evs _ (init_inv registry)) as HI.
  split; [|split].
  - intros id j Hj. destruct (inv_rows _ HI _ _ Hj) as (_ & _ & Ha & _). lia.
  - apply GetRetryableJobs_nil, HI.
  - unfold workerService.tick_step.
    destruct (workerService.o_fault o); [done|].
    rewrite GetRetryableJobs_nil by apply HI.
    unfold workerService.set_scan. simpl. rewrite app_nil_r.
    by destruct (workerService.run _ _ _).
Qed.

(** X26: what [handleJobFailure] writes.  For a worker at
    [handleJobFailure] whose job has a visible row, without a transport
    fault and without overflow of the counter, the step adds one to the
    stored attempts and stores the error text (keeping the old text for an
    empty one); the row becomes FAILED when the attempts of the worker's
    in-memory copy plus one reach its max_attempts and RETRYING otherwise,
    and the worker goes on to [MarkFailed] with a zero delay in the first
    case and the backoff delay in the second.  No other row changes. *)
Theorem handleJobFailure_outcome
    (conv_overflow : Z) (o : workerService.Oracle) (i : nat)
    (s : workerService.State) (c j : entity.Job) (jobErr : error) :
  workerService.busy s !! i = Some (c, workerService.AtHandleJobFailure jobErr) ->
  workerService.o_fault o = None ->
  workerService.jobs s !! entity.ID c = Some j ->
  entity.DeletedAt j = None ->
  - 2 ^ 63 <= entity.Attempts c + 1 < 2 ^ 63 ->
  let s' := workerService.worker_step conv_overflow o i s in
  let final :=
    bool_decide (entity.MaxAttempts c <= entity.Attempts c + 1) in
  exists j',
    workerService.jobs s' !! entity.ID c = Some j' /\
    entity.Attempts j' = entity.Attempts j + 1 /\
    entity.Status j' = (if final then job.Failed else job.Retrying) /\
    entity.Error j' = jobRepository.with_error jobErr (entity.Error j) /\
    entity.UpdatedAt j' = Some (workerService.o_now o) /\
    workerService.busy s' !! i =
      Some (entity.set_Attempts (entity.Attempts c + 1) c,
            workerService.AtMarkFailed
              (if final then 0
               else workerPool.calculateRetryDelay conv_overflow
                      (entity.Attempts c + 1))) /\
    forall id, id <> entity.ID c ->
      workerService.jobs s' !! id = workerService.jobs s !! id.
Proof.
  intros Hb Hf Hj Hd Hr. simpl.
  assert (Hlen : (i < length (workerService.busy s))%nat)
    by (by eapply lookup_lt_Some).
  unfold workerService.worker_step. rewrite Hb, Hf. simpl.
  rewrite (int64_wrap_small (entity.Attempts c + 1)) by lia.
  case_bool_decide as Hfin.
  - rewrite (proj2 (Z.leb_le _ _) Hfin). simpl.
    unfold jobRepository.UpdateJobToFailed, jobRepository.update_live.
    rewrite lookup_alter_eq, Hj. simpl. rewrite Hd.
    eexists. split; [reflexivity|]. simpl.
    repeat split; try done.
    + by rewrite list_lookup_insert_eq.
    + intros id Hid. by rewrite lookup_alter_ne.
  - rewrite (proj2 (Z.leb_gt _ _)) by lia. simpl.
    unfold jobRepository.UpdateJobToRetrying, jobRepository.update_live.
    rewrite lookup_alter_eq, Hj. simpl. rewrite Hd.
    eexists. split; [reflexivity|]. simpl.
    repeat split; try done.
    + by rewrite list_lookup_insert_eq.
    + intros id Hid. by rewrite lookup_alter_ne.
Qed.

Lemma settled_rows_are_final_witness :
  exists j,
    workerService.jobs
      (workerService.run 0 retrying_schedule
         (workerService.init sample_registry)) !! "j1"%string = Some j /\
    entity.Status j = job.Retrying /\
    workerService.jobs
      (workerService.run 0 (retrying_schedule ++ later_scan)
         (workerService.init sample_registry)) !! "j1"%string = Some j.
Proof.
  destruct (workerService.jobs
              (workerService.run 0 retrying_schedule
                 (workerService.init sample_registry)) !! "j1"%string)
    as [j|] eqn:Hj.
  - assert (Hst : entity.Status j = job.Retrying).
    { revert Hj. vm_compute. intros [= <-]. reflexivity. }
    exists j. split; [reflexivity|]. split; [exact Hst|].
    apply (settled_rows_are_final 0 sample_registry retrying_schedule
             later_scan "j1" j Hj).
    right. right. exact Hst.
  - exfalso. revert Hj. vm_compute. discriminate.
Defined.

Lemma handleJobFailure_outcome_witness :
  exists j',
    workerService.jobs
      (workerService.worker_step 0 (quiet 9) 0 failure_state) !! "j1"%string
      = Some j' /\
    entity.Attempts j' = 1 /\
    entity.Status j' = job.Retrying /\
    entity.Error j' = "boom"%string.
Proof.
  pose proof (handleJobFailure_outcome 0 (quiet 9) 0 failure_state
                (mk_pending "j1" job.PriorityHigh 5)
                (mk_pending "j1" job.PriorityHigh 5) "boom") as H.
  cbv zeta in H.
  destruct H as (j' & Hj & Ha & Hs & He & _).
  - reflexivity.
  - reflexivity.
  - vm_compute. reflexivity.
  - reflexivity.
  - vm_compute. split; [discriminate | reflexivity].
  - exists j'. split; [exact Hj|]. split; [exact Ha|].
    split; [exact Hs | exact He].
Defined.

(** The statements of a worker at the head of the busy list, without
    faults. *)
Lemma worker_step_MarkProcessing (conv_overflow t : Z)
    (db : gmap string entity.Job) (r : queue.Redis) (c : entity.Job)
    (rest : list (entity.Job * workerService.pc))
    (sc : list (entity.Job * workerService.scan_pc)) (reg : gset string) :
  workerService.worker_step conv_overflow (quiet t) 0
    (workerService.mkState db r
       ((c, workerService.AtMarkProcessing) :: rest) sc reg) =
  workerService.mkState db
    (queue.ZAdd queue.ProcessingSetKey (entity.ID c) (queue.Unix t) r)
    ((c, workerService.AtUpdateJobToProcessing) :: rest) sc reg.
Proof. reflexivity. Qed.

Lemma worker_step_UpdateJobToProcessing (conv_overflow t : Z)
    (db : gmap string entity.Job) (r : queue.Redis) (c : entity.Job)
    (rest : list (entity.Job * workerService.pc))
    (sc : list (entity.Job * workerService.scan_pc)) (reg : gset string) :
  workerService.worker_step conv_overflow (quiet t) 0
    (workerService.mkState db r
       ((c, workerService.AtUpdateJobToProcessing) :: rest) sc reg) =
  workerService.mkState
    (jobRepository.UpdateJobToProcessing (entity.ID c) t t db) r
    ((c, workerService.AtHandle) :: rest) sc reg.
Proof. reflexivity. Qed.

Lemma worker_step_Handle_ok (conv_overflow t : Z)
    (db : gmap string entity.Job) (r : queue.Redis) (c : entity.Job)
    (rest : list (entity.Job * workerService.pc))
    (sc : list (entity.Job * workerService.scan_pc)) (reg : gset string) :
  entity.Type_ c ∈ reg ->
  workerService.worker_step conv_overflow (quiet t) 0
    (workerService.mkState db r
       ((c, workerService.AtHandle) :: rest) sc reg) =
  workerService.mkState db r
    ((c, workerService.AtUpdateJobToCompleted) :: rest) sc reg.
Proof.
  intros Hreg. unfold workerService.worker_step.
  change (workerService.busy _ !! 0%nat)
    with (Some (c, workerService.AtHandle)).
  cbv beta iota.
  change (workerService.handlerRegistry _) with reg.
  by rewrite decide_True.
Qed.

Lemma worker_step_UpdateJobToCompleted (conv_overflow t : Z)
    (db : gmap string entity.Job) (r : queue.Redis) (c : entity.Job)
    (rest : list (entity.Job * workerService.pc))
    (sc : list (entity.Job * workerService.scan_pc)) (reg : gset string) :
  workerService.worker_step conv_overflow (quiet t) 0
    (workerService.mkState db r
       ((c, workerService.AtUpdateJobToCompleted) :: rest) sc reg) =
  workerService.mkState
    (jobRepository.UpdateJobToCompleted (entity.ID c) t t db) r
    ((c, workerService.AtMarkCompleted) :: rest) sc reg.
Proof. reflexivity. Qed.

Lemma worker_step_MarkCompleted (conv_overflow t : Z)
    (db : gmap string entity.Job) (r : queue.Redis) (c : entity.Job)
    (rest : list (entity.Job * workerService.pc))
    (sc : list (entity.Job * workerService.scan_pc)) (reg : gset string) :
  workerService.worker_step conv_overflow (quiet t) 0
    (workerService.mkState db r
       ((c, workerService.AtMarkCompleted) :: rest) sc reg) =
  workerService.mkState db
    (queue.ZRem queue.ProcessingSetKey (entity.ID c) r) rest sc reg.
Proof. reflexivity. Qed.

(** X27: the successful path of a worker.  When the oldest entry of the
    queue is a job with a visible row and a registered handler, one
    [Dequeue] followed by the five statements of [processJob] and
    [handleJobSuccess], without faults and with a handler that returns no
    error, leaves the row COMPLETED with [started_at] and [completed_at]
    set to the times of the two updates, attempts and error text as they
    were; the job is gone from the queue and from the processing set, and
    the worker is free again. *)
Theorem successful_job_is_completed
    (conv_overflow : Z) (s : workerService.State) (c j : entity.Job)
    (front : list queue.wire) (t1 t2 t3 t4 t5 t6 : Z) :
  queue.list_at queue.QueueKey (workerService.redis s)
    = front ++ [queue.WJob c] ->
  workerService.jobs s !! entity.ID c = Some j ->
  entity.DeletedAt j = None ->
  entity.Type_ c ∈ workerService.handlerRegistry s ->
  let s' :=
    workerService.run conv_overflow
      [ workerService.EvDequeue (quiet t1);
        workerService.EvWorker 0 (quiet t2);
        workerService.EvWorker 0 (quiet t3);
        workerService.EvWorker 0 (quiet t4);
        workerService.EvWorker 0 (quiet t5);
        workerService.EvWorker 0 (quiet t6) ] s in
  exists j',
    workerService.jobs s' !! entity.ID c = Some j' /\
    entity.Status j' = job.Completed /\
    entity.StartedAt j' = Some t3 /\
    entity.CompletedAt j' = Some t5 /\
    entity.Attempts j' = entity.Attempts j /\
    entity.Error j' = entity.Error j /\
    (forall id, id <> entity.ID c ->
       workerService.jobs s' !! id = workerService.jobs s !! id) /\
    workerService.busy s' = workerService.busy s /\
    queue.list_at queue.QueueKey (workerService.redis s') = front /\
    queue.zset_at queue.ProcessingSetKey (workerService.redis s')
      !! entity.ID c = None.
Proof.
  intros Hq Hj Hd Hreg.
  destruct (Dequeue_job _ _ _ Hq) as (r1 & Hdeq & Hfront & Hz).
  destruct s as [db r busy sc reg].
  change (db !! entity.ID c = Some j) in Hj.
  change (entity.Type_ c ∈ reg) in Hreg.
  change (queue.Dequeue None queue.GetPriorityQueues r = (r1, Ok (Some c)))
    in Hdeq.
  assert (Hrun :
    workerService.run conv_overflow
      [ workerService.EvDequeue (quiet t1);
        workerService.EvWorker 0 (quiet t2);
        workerService.EvWorker 0 (quiet t3);
        workerService.EvWorker 0 (quiet t4);
        workerService.EvWorker 0 (quiet t5);
        workerService.EvWorker 0 (quiet t6) ]
      (workerService.mkState db r busy sc reg) =
    workerService.mkState
      (jobRepository.UpdateJobToCompleted (entity.ID c) t5 t5
         (jobRepository.UpdateJobToProcessing (entity.ID c) t3 t3 db))
      (queue.ZRem queue.ProcessingSetKey (entity.ID c)
         (queue.ZAdd queue.ProcessingSetKey (entity.ID c) (queue.Unix t2) r1))
      busy sc reg).
  { unfold workerService.run.
    cbn [foldl workerService.step].
    assert (Hs1 :
      workerService.dequeue_step (quiet t1)
        (workerService.mkState db r busy sc reg) =
      workerService.mkState db r1
        ((c, workerService.AtMarkProcessing) :: busy) sc reg).
    { unfold workerService.dequeue_step.
      change (workerService.o_fault (quiet t1)) with (@None error).
      change (workerService.redis _) with r.
      by rewrite Hdeq. }
    rewrite Hs1, worker_step_MarkProcessing,
      worker_step_UpdateJobToProcessing, worker_step_Handle_ok,
      worker_step_UpdateJobToCompleted, worker_step_MarkCompleted by done.
    reflexivity. }
  cbv zeta. rewrite Hrun.
  cbn [workerService.jobs workerService.redis workerService.busy].
  unfold jobRepository.UpdateJobToCompleted,
    jobRepository.UpdateJobToProcessing, jobRepository.update_live.
  rewrite !lookup_alter_eq, Hj. cbn [fmap option_fmap option_map].
  rewrite Hd. cbn [entity.DeletedAt].
  eexists. split; [reflexivity|].
  cbn [entity.Status entity.StartedAt entity.CompletedAt entity.Attempts
       entity.Error].
  repeat split.
  - intros id Hid. by rewrite !lookup_alter_ne.
  - exact Hfront.
  - rewrite zset_at_ZRem, decide_True by done. apply lookup_delete_eq.
Qed.

Lemma successful_job_is_completed_witness :
  exists j',
    workerService.jobs
      (workerService.run 0
         [ workerService.EvDequeue (quiet 6);
           workerService.EvWorker 0 (quiet 7);
           workerService.EvWorker 0 (quiet 8);
           workerService.EvWorker 0 (quiet 9);
           workerService.EvWorker 0 (quiet 10);
           workerService.EvWorker 0 (quiet 11) ] queued_state)
      !! "j1"%string = Some j' /\
    entity.Status j' = job.Completed /\
    entity.StartedAt j' = Some 8 /\
    entity.CompletedAt j' = Some 10.
Proof.
  pose proof (successful_job_is_completed 0 queued_state
                (mk_pending "j1" job.PriorityHigh 5)
                (mk_pending "j1" job.PriorityHigh 5) [] 6 7 8 9 10 11) as H.
  cbv zeta in H.
  destruct H as (j' & Hj & Hs & Hst & Hc & _).
  - vm_compute. reflexivity.
  - vm_compute. reflexivity.
  - reflexivity.
  - unfold queued_state, sample_registry. simpl.
    apply elem_of_union. left. apply elem_of_union. left.
    by apply elem_of_singleton.
  - exists j'. split; [exact Hj|]. split; [exact Hs|].
    split; [exact Hst | exact Hc].
Defined.
